(** * apache_mod_status_exporter: a shallow embedding and its properties

    The development follows [apache_mod_status_exporter.py]:
    - Python text primitives used by the program ([str.strip], [str.split],
      [str.find]), on strings whose characters are code points below 256;
    - the builtin coercions [int()] and [float()] applied to status values;
    - the part of [urllib.parse] that [ensure_auto_parameter] calls;
    - the Prometheus gauges, the process environment and the printed lines
      as an explicit program state;
    - [ensure_auto_parameter], the status parser inside
      [fetch_apache_status], [update_metrics], [fetch_and_update] and
      [collect_metrics]. *)

From Stdlib Require Import ZArith QArith Ascii String List Lia Permutation.
From stdpp Require Import base option list gmap strings.

Local Open Scope Z_scope.
Local Open Scope nat_scope.

(** ** Python text primitives *)

(** [ch.isspace()] for a code point below 256: the characters removed by
    [str.strip()]. *)
Definition is_space (c : ascii) : bool :=
  let n := N_of_ascii c in
  ((9 <=? n) && (n <=? 13) || (28 <=? n) && (n <=? 32)
   || (n =? 133) || (n =? 160))%N.

Fixpoint lstrip (s : string) : string :=
  match s with
  | EmptyString => EmptyString
  | String c s' => if is_space c then lstrip s' else s
  end.

Fixpoint rstrip (s : string) : string :=
  match s with
  | EmptyString => EmptyString
  | String c s' =>
      match rstrip s' with
      | EmptyString => if is_space c then EmptyString else String c EmptyString
      | r => String c r
      end
  end.

(** [s.strip()] *)
Definition strip (s : string) : string := rstrip (lstrip s).

(** [s.startswith(sep)] *)
Fixpoint starts_with (sep s : string) : bool :=
  match sep, s with
  | EmptyString, _ => true
  | String a sep', String b s' => Ascii.eqb a b && starts_with sep' s'
  | String _ _, EmptyString => false
  end.

(** Prepends a character to the first piece of a split. *)
Definition push_char (c : ascii) (ps : list string) : list string :=
  match ps with
  | [] => [String c EmptyString]
  | p :: ps' => String c p :: ps'
  end.

(** [s.split(sep)] for a non-empty [sep]: the text is cut at every
    occurrence of [sep], scanning from the left; [skip] counts the
    characters of a separator that was just matched and is being passed. *)
Fixpoint split_from (sep : string) (skip : nat) (s : string) : list string :=
  match s with
  | EmptyString => [EmptyString]
  | String c s' =>
      match skip with
      | S k => split_from sep k s'
      | O =>
          if starts_with sep s
          then EmptyString :: split_from sep (String.length sep - 1) s'
          else push_char c (split_from sep 0 s')
      end
  end.

Definition split (sep s : string) : list string := split_from sep 0 s.

(** [sep.join(pieces)] *)
Fixpoint join (sep : string) (ps : list string) : string :=
  match ps with
  | [] => EmptyString
  | [p] => p
  | p :: ps' => p +:+ sep +:+ join sep ps'
  end.

(** Number of positions of [s] at which [sep] occurs. *)
Fixpoint occurrences (sep s : string) : nat :=
  match s with
  | EmptyString => 0
  | String _ s' => (if starts_with sep s then 1 else 0) + occurrences sep s'
  end.

(** The text of [s] in front of the first occurrence of [sep]. *)
Fixpoint before (sep s : string) : string :=
  match s with
  | EmptyString => EmptyString
  | String c s' => if starts_with sep s then EmptyString else String c (before sep s')
  end.

(** [s[n:]] *)
Fixpoint str_drop (n : nat) (s : string) : string :=
  match n, s with
  | S k, String _ s' => str_drop k s'
  | _, _ => s
  end.

(** [s[:n]] *)
Fixpoint str_take (n : nat) (s : string) : string :=
  match n, s with
  | S k, String a s' => String a (str_take k s')
  | _, _ => EmptyString
  end.

(** The text of [s] behind the first occurrence of [sep]. *)
Fixpoint after (sep s : string) : string :=
  match s with
  | EmptyString => EmptyString
  | String _ s' => if starts_with sep s then str_drop (String.length sep) s else after sep s'
  end.

Definition head_space (s : string) : bool :=
  match s with
  | EmptyString => false
  | String c _ => is_space c
  end.

Fixpoint last_space (s : string) : bool :=
  match s with
  | EmptyString => false
  | String c EmptyString => is_space c
  | String _ s' => last_space s'
  end.

(** A text with no white space at either end. *)
Definition trimmed (s : string) : Prop :=
  head_space s = false ∧ last_space s = false.

Definition newline : string := String "010"%char EmptyString.
Definition colon_space : string := ": ".

(** ** The status parser (the loop of [fetch_apache_status]) *)

(** One iteration of [for item in data.split('\n')]. *)
Definition parse_item (server_status : gmap string string) (item : string)
  : gmap string string :=
  match split colon_space item with
  | [key; val] => <[strip key := strip val]> server_status
  | _ => server_status
  end.

Definition parse_status (data : string) : gmap string string :=
  foldl parse_item ∅ (split newline data).

(** The entry a line contributes, if any. *)
Definition entry_of (item : string) : option (string * string) :=
  match split colon_space item with
  | [key; val] => Some (strip key, strip val)
  | _ => None
  end.

(** Insertion of one entry, the effect of a kept line. *)
Definition put (m : gmap string string) (kv : string * string) : gmap string string :=
  <[kv.1 := kv.2]> m.

Definition kept_entries (data : string) : list (string * string) :=
  omap entry_of (split newline data).

Definition one_separator (item : string) : bool :=
  Nat.eqb (occurrences colon_space item) 1.

(** The lines of [data] that hold exactly one separator, and the key and
    value of such a line. *)
Definition kept_lines (data : string) : list string :=
  filter (fun item => one_separator item = true) (split newline data).

Definition key_of (item : string) : string := strip (before colon_space item).
Definition value_of (item : string) : string := strip (after colon_space item).

(** ** Python numbers and the builtin coercions *)

Inductive exn : Type :=
  | ValueError (text : string)        (* [int()], [float()], [urlsplit] *)
  | OverflowError                     (* an [int] too large for a [float] *)
  | ZeroDivisionError
  | KeyError (key : string)
  | ClientError (reason : string).    (* raised by the HTTP client *)

Definition result (A : Type) : Type := (exn + A)%type.
Definition Raise {A : Type} (e : exn) : result A := inl e.
Definition Return {A : Type} (a : A) : result A := inr a.

(** A Python [float].  A finite value is kept as its sign and the exact
    rational magnitude of the expression that produced it; the rounding of
    that magnitude to binary64 is not represented, the overflow past the
    largest binary64 value is. *)
Inductive pyfloat : Type :=
  | Finite (negative : bool) (magnitude : Q)
  | Infinite (negative : bool)
  | NaN.

(** Magnitudes from [float_overflow] on round to a value outside binary64. *)
Definition float_overflow : Z := (2 ^ 1024 - 2 ^ 970)%Z.

Definition is_digit (c : ascii) : bool :=
  let n := N_of_ascii c in ((48 <=? n) && (n <=? 57))%N.

Definition digit_val (c : ascii) : Z := (Z.of_N (N_of_ascii c) - 48)%Z.

Definition is_underscore (c : ascii) : bool := Ascii.eqb c "_".

(** Underscores in a numeric literal stand between two digits. *)
Fixpoint underscores_ok (prev : ascii) (s : string) : bool :=
  match s with
  | EmptyString => negb (is_underscore prev)
  | String c s' =>
      (if is_underscore c then is_digit prev
       else if is_underscore prev then is_digit c else true)
      && underscores_ok c s'
  end.

Fixpoint remove_underscores (s : string) : string :=
  match s with
  | EmptyString => EmptyString
  | String c s' =>
      if is_underscore c then remove_underscores s'
      else String c (remove_underscores s')
  end.

(** The longest prefix of digits, and what follows it. *)
Fixpoint span_digits (s : string) : string * string :=
  match s with
  | EmptyString => (EmptyString, EmptyString)
  | String c s' =>
      if is_digit c
      then (String c (span_digits s').1, (span_digits s').2)
      else (EmptyString, s)
  end.

Fixpoint digits_to_Z (acc : Z) (ds : string) : Z :=
  match ds with
  | EmptyString => acc
  | String c ds' => digits_to_Z (10 * acc + digit_val c)%Z ds'
  end.

(** An optional sign: [true] for [-]. *)
Definition take_sign (s : string) : bool * string :=
  match s with
  | String c s' =>
      if Ascii.eqb c "-" then (true, s')
      else if Ascii.eqb c "+" then (false, s')
      else (false, s)
  | EmptyString => (false, s)
  end.

(** The white space that [int()] and [float()] skip at both ends of a text
    of code points below 256: the white space of C, and the two characters
    above 127 that [str.isspace] accepts, which both builtins turn into
    blanks first.  The separators 28 to 31, which [str.strip()] removes, are
    refused. *)
Definition is_number_space (c : ascii) : bool :=
  let n := N_of_ascii c in
  ((9 <=? n) && (n <=? 13) || (n =? 32) || (n =? 133) || (n =? 160))%N.

Fixpoint lstrip_number (s : string) : string :=
  match s with
  | EmptyString => EmptyString
  | String c s' => if is_number_space c then lstrip_number s' else s
  end.

Fixpoint rstrip_number (s : string) : string :=
  match s with
  | EmptyString => EmptyString
  | String c s' =>
      match rstrip_number s' with
      | EmptyString => if is_number_space c then EmptyString else String c EmptyString
      | r => String c r
      end
  end.

Definition strip_number (s : string) : string := rstrip_number (lstrip_number s).

(** [sys.get_int_max_str_digits()], which the program leaves at its default:
    [int()] refuses a text with more digits. *)
Definition int_max_str_digits : nat := 4300.

(** [int(text)] in base 10. *)
Definition int_of_str (text : string) : result Z :=
  let '(neg, body) := take_sign (strip_number text) in
  let ds := remove_underscores body in
  if underscores_ok "000" body && negb (String.eqb ds "")
     && String.eqb (span_digits ds).2 ""
     && (String.length ds <=? int_max_str_digits)
  then Return (if neg then - digits_to_Z 0 ds else digits_to_Z 0 ds)%Z
  else Raise (ValueError text).

(** [float(n)] for an [int]: the magnitude kept is the exact one, where
    CPython rounds it to the nearest binary64 (from 2 ^ 53 on the two can
    differ). *)
Definition float_of_int (n : Z) : result pyfloat :=
  if (float_overflow <=? Z.abs n)%Z then Raise OverflowError
  else Return (Finite (n <? 0)%Z (Z.abs n # 1)).

Definition lower (c : ascii) : ascii :=
  let n := N_of_ascii c in
  if ((65 <=? n) && (n <=? 90))%N then ascii_of_N (n + 32) else c.

Fixpoint lower_str (s : string) : string :=
  match s with
  | EmptyString => EmptyString
  | String c s' => String (lower c) (lower_str s')
  end.

(** The value [mantissa * 10 ^ exponent] as a [float]. *)
Definition decimal_float (neg : bool) (mantissa exponent : Z) : pyfloat :=
  let q := if (0 <=? exponent)%Z
           then (mantissa * 10 ^ exponent)%Z # 1
           else Qred (mantissa # Z.to_pos (10 ^ (- exponent))) in
  if Qle_bool (float_overflow # 1) q then Infinite neg else Finite neg q.

(** The exponent part of a literal, after its [e]. *)
Definition exponent_of (s : string) : option Z :=
  let '(neg, r) := take_sign s in
  let '(ds, rest) := span_digits r in
  if negb (String.eqb ds "") && String.eqb rest ""
  then Some (if neg then - digits_to_Z 0 ds else digits_to_Z 0 ds)%Z
  else None.

(** A literal without white space and underscores. *)
Definition float_literal (s : string) : option pyfloat :=
  let '(neg, body) := take_sign s in
  let word := lower_str body in
  if String.eqb word "inf" || String.eqb word "infinity" then Some (Infinite neg)
  else if String.eqb word "nan" then Some NaN
  else
    let '(ip, r1) := span_digits body in
    let '(fp, r2) := match r1 with
                     | String c r => if Ascii.eqb c "." then span_digits r
                                     else (EmptyString, r1)
                     | EmptyString => (EmptyString, r1)
                     end in
    if String.eqb ip "" && String.eqb fp "" then None
    else
      let mantissa := digits_to_Z 0 (ip +:+ fp) in
      let shift := Z.of_nat (String.length fp) in
      match r2 with
      | EmptyString => Some (decimal_float neg mantissa (- shift))
      | String c r3 =>
          if Ascii.eqb (lower c) "e"
          then match exponent_of r3 with
               | Some e => Some (decimal_float neg mantissa (e - shift))
               | None => None
               end
          else None
      end.

(** [float(text)] *)
Definition float_of_str (text : string) : result pyfloat :=
  let body := strip_number text in
  if underscores_ok "000" body
  then match float_literal (remove_underscores body) with
       | Some f => Return f
       | None => Raise (ValueError text)
       end
  else Raise (ValueError text).

(** [n / d] on two [int]s: the exact quotient, where CPython rounds it to
    the nearest binary64. *)
Definition int_truediv (n d : Z) : result pyfloat :=
  if (d =? 0)%Z then Raise ZeroDivisionError
  else
    let q := Qred (Z.abs n # Z.to_pos (Z.abs d)) in
    if Qle_bool (float_overflow # 1) q then Raise OverflowError
    else Return (Finite (xorb (n <? 0)%Z (d <? 0)%Z) q).

(** What [server_status.get(key, 0)] evaluates to. *)
Inductive pyval : Type :=
  | VStr (s : string)
  | VInt (n : Z).

Definition dict_get (d : gmap string string) (key : string) (default : pyval) : pyval :=
  match d !! key with
  | Some s => VStr s
  | None => default
  end.

Definition py_float (v : pyval) : result pyfloat :=
  match v with
  | VStr s => float_of_str s
  | VInt n => float_of_int n
  end.

Definition py_int (v : pyval) : result Z :=
  match v with
  | VStr s => int_of_str s
  | VInt n => Return n
  end.

(** The argument of [Gauge.set], which stores [float(value)]. *)
Inductive pynum : Type :=
  | NInt (n : Z)
  | NFloat (f : pyfloat).

Definition to_float (v : pynum) : result pyfloat :=
  match v with
  | NInt n => float_of_int n
  | NFloat f => Return f
  end.

(** ** Program state: gauges, process environment, printed lines *)

(** The lines the program prints. *)
Inductive line : Type :=
  | Updating (server_label : string)
      (* [Updating server metrics for {server_label}] *)
  | ErrorFetching (server_label : string) (e : exn).
      (* [Error fetching data from {server_label}: {e}] *)

(** [gauges] holds the children of the eight module-level [Gauge] objects,
    keyed by metric name and [hostname] label value; [environ] is
    [os.environ]; [stdout] lists the printed lines, oldest first. *)
Record state : Type := mkState {
  gauges : gmap (string * string) pyfloat;
  environ : gmap string string;
  stdout : list line
}.

Definition with_gauges (f : gmap (string * string) pyfloat → gmap (string * string) pyfloat)
  (st : state) : state :=
  mkState (f (gauges st)) (environ st) (stdout st).

Definition with_environ (f : gmap string string → gmap string string)
  (st : state) : state :=
  mkState (gauges st) (f (environ st)) (stdout st).

Definition empty_state : state := mkState ∅ ∅ [].

(** Computations that change the state and return or raise; what was
    changed before an exception stays changed. *)
Definition M (A : Type) : Type := state → state * result A.

Definition ret {A : Type} (a : A) : M A := fun st => (st, Return a).

Definition bind {A B : Type} (m : M A) (k : A → M B) : M B :=
  fun st =>
    match m st with
    | (st', inl e) => (st', Raise e)
    | (st', inr a) => k a st'
    end.

Definition lift {A : Type} (r : result A) : M A := fun st => (st, r).

(** [try: body except Exception as e: handler(e)] *)
Definition try_except (body : M unit) (handler : exn → M unit) : M unit :=
  fun st =>
    match body st with
    | (st', inl e) => handler e st'
    | (st', inr tt) => (st', Return tt)
    end.

Declare Scope py_scope.
Delimit Scope py_scope with py.
Notation "x <- m ;; k" := (bind m (fun x => k))
  (at level 100, m at next level, right associativity) : py_scope.
Notation "m ;; k" := (bind m (fun _ => k))
  (at level 100, right associativity) : py_scope.
Local Open Scope py_scope.

Definition print (l : line) : M unit :=
  fun st => (mkState (gauges st) (environ st) (stdout st ++ [l]), Return tt).

Definition apache_total_accesses : string := "apache_total_accesses".
Definition apache_cpu_load : string := "apache_cpu_load".
Definition apache_uptime : string := "apache_uptime".
Definition apache_req_per_sec : string := "apache_req_per_sec".
Definition apache_bytes_per_sec : string := "apache_bytes_per_sec".
Definition apache_worker_ratio : string := "apache_worker_ratio".
Definition apache_busy_workers : string := "apache_busy_workers".
Definition apache_idle_workers : string := "apache_idle_workers".

Definition metric_names : list string :=
  [apache_total_accesses; apache_cpu_load; apache_uptime; apache_req_per_sec;
   apache_bytes_per_sec; apache_worker_ratio; apache_busy_workers;
   apache_idle_workers].

(** The value of a freshly created child. *)
Definition float_zero : pyfloat := Finite false 0.

(** [metric.labels(hostname=hostname)]: the child, created at zero when the
    label value is new. *)
Definition labels (metric hostname : string) : M (string * string) :=
  fun st =>
    (match gauges st !! (metric, hostname) with
     | Some _ => st
     | None => with_gauges (insert (metric, hostname) float_zero) st
     end, Return (metric, hostname)).

(** [child.set(value)] stores [float(value)]. *)
Definition gauge_set (child : string * string) (value : pynum) : M unit :=
  fun st =>
    match to_float value with
    | inl e => (st, Raise e)
    | inr f => (with_gauges (insert child f) st, Return tt)
    end.

(** ** The effect of a computation on the gauges *)

(** The two ways in which the program touches a child: [labels] creates
    it when missing, [set] stores a value. *)
Inductive op : Type :=
  | Touch (child : string * string)
  | Store (child : string * string) (v : pyfloat).

Definition op_child (o : op) : string * string :=
  match o with
  | Touch k => k
  | Store k _ => k
  end.

Definition apply_op (m : gmap (string * string) pyfloat) (o : op)
  : gmap (string * string) pyfloat :=
  match o with
  | Touch k => match m !! k with Some _ => m | None => <[k := float_zero]> m end
  | Store k v => <[k := v]> m
  end.

(** What an operation does to the value held for the child [k]. *)
Definition step_at (k : string * string) (x : option pyfloat) (o : op)
  : option pyfloat :=
  match o with
  | Touch k' => if decide (k' = k) then Some (default float_zero x) else x
  | Store k' v => if decide (k' = k) then Some v else x
  end.

(** [m] performs the operations [ops], prints [out] and ends with [r],
    whatever the state it starts in; it leaves the environment alone. *)
Definition traced {A : Type} (m : M A) (ops : list op) (out : list line)
  (r : result A) : Prop :=
  ∀ st, m st = (mkState (foldl apply_op (gauges st) ops) (environ st)
                        (stdout st ++ out), r).

Definition line_label (l : line) : string :=
  match l with
  | Updating server_label => server_label
  | ErrorFetching server_label _ => server_label
  end.

(** [m] touches only children of the label value [hostname] of the eight
    metrics, and prints only lines that satisfy [L]. *)
Definition confined {A : Type} (hostname : string) (L : line → Prop) (m : M A)
  : Prop :=
  ∃ ops out r,
    traced m ops out r
    ∧ Forall (fun o => (op_child o).2 = hostname ∧ (op_child o).1 ∈ metric_names) ops
    ∧ Forall L out.

(** ** [update_metrics] *)

Definition update_metrics (server_label : string)
  (server_status : gmap string string) (verbose : bool) : M unit :=
  (if verbose then print (Updating server_label) else ret tt) ;;
  (g <- labels apache_total_accesses server_label ;;
   v <- lift (py_float (dict_get server_status "Total Accesses" (VInt 0))) ;;
   gauge_set g (NFloat v)) ;;
  (g <- labels apache_cpu_load server_label ;;
   v <- lift (py_float (dict_get server_status "CPULoad" (VInt 0))) ;;
   gauge_set g (NFloat v)) ;;
  (g <- labels apache_uptime server_label ;;
   v <- lift (py_float (dict_get server_status "Uptime" (VInt 0))) ;;
   gauge_set g (NFloat v)) ;;
  (g <- labels apache_req_per_sec server_label ;;
   v <- lift (py_float (dict_get server_status "ReqPerSec" (VInt 0))) ;;
   gauge_set g (NFloat v)) ;;
  (g <- labels apache_bytes_per_sec server_label ;;
   v <- lift (py_float (dict_get server_status "BytesPerSec" (VInt 0))) ;;
   gauge_set g (NFloat v)) ;;
  busy_workers <- lift (py_int (dict_get server_status "BusyWorkers" (VInt 0))) ;;
  idle_workers <- lift (py_int (dict_get server_status "IdleWorkers" (VInt 0))) ;;
  (g <- labels apache_busy_workers server_label ;; gauge_set g (NInt busy_workers)) ;;
  (g <- labels apache_idle_workers server_label ;; gauge_set g (NInt idle_workers)) ;;
  ratio <- (if (0 <? idle_workers)%Z
            then v <- lift (int_truediv busy_workers idle_workers) ;; ret (NFloat v)
            else ret (NInt busy_workers)) ;;
  g <- labels apache_worker_ratio server_label ;;
  gauge_set g ratio.

(** ** The part of [urllib.parse] used by [ensure_auto_parameter]

    After CPython 3.11.  Not represented: the check of a bracketed host
    against the IPv6 and IPvFuture syntax, and the UTF-8 decoding of the
    bytes that [unquote] produces (the program only asks whether a decoded
    name is ['auto'], on which bytes and decoded text agree). *)

(** [s.find(c)] *)
Fixpoint find_char (c : ascii) (s : string) : option nat :=
  match s with
  | EmptyString => None
  | String a s' => if Ascii.eqb a c then Some 0 else S <$> find_char c s'
  end.

(** [s.rfind(c)] *)
Fixpoint rfind_char (c : ascii) (s : string) : option nat :=
  match s with
  | EmptyString => None
  | String a s' =>
      match rfind_char c s' with
      | Some i => Some (S i)
      | None => if Ascii.eqb a c then Some 0 else None
      end
  end.

(** [s.find(c, start)] *)
Definition find_from (c : ascii) (start : nat) (s : string) : option nat :=
  (fun i => start + i) <$> find_char c (str_drop start s).

(** [c in s] *)
Definition contains (c : ascii) (s : string) : bool :=
  match find_char c s with Some _ => true | None => false end.

(** [s.split(c, 1)] when [c] occurs in [s]. *)
Definition cut (c : ascii) (s : string) : option (string * string) :=
  (fun i => (str_take i s, str_drop (S i) s)) <$> find_char c s.

Fixpoint str_forall (f : ascii → bool) (s : string) : bool :=
  match s with
  | EmptyString => true
  | String a s' => f a && str_forall f s'
  end.

Fixpoint str_filter (f : ascii → bool) (s : string) : string :=
  match s with
  | EmptyString => EmptyString
  | String a s' => if f a then String a (str_filter f s') else str_filter f s'
  end.

Definition is_alpha (c : ascii) : bool :=
  let n := N_of_ascii c in
  ((65 <=? n) && (n <=? 90) || (97 <=? n) && (n <=? 122))%N.

Definition head_alpha (s : string) : bool :=
  match s with
  | EmptyString => false
  | String c _ => is_alpha c
  end.

(** Membership in [scheme_chars]. *)
Definition scheme_char (c : ascii) : bool :=
  is_alpha c || is_digit c || Ascii.eqb c "+" || Ascii.eqb c "-" || Ascii.eqb c ".".

Definition uses_netloc : list string :=
  [""; "ftp"; "http"; "gopher"; "nntp"; "telnet"; "imap"; "wais"; "file";
   "mms"; "https"; "shttp"; "snews"; "prospero"; "rtsp"; "rtspu"; "rsync";
   "svn"; "svn+ssh"; "sftp"; "nfs"; "git"; "git+ssh"; "ws"; "wss"].

Definition uses_params : list string :=
  [""; "ftp"; "hdl"; "prospero"; "http"; "imap"; "https"; "shttp"; "rtsp";
   "rtspu"; "sip"; "sips"; "mms"; "sftp"; "tel"].

Definition str_in (s : string) (l : list string) : bool := existsb (String.eqb s) l.

(** [url.lstrip(_WHATWG_C0_CONTROL_OR_SPACE)] *)
Fixpoint lstrip_c0 (s : string) : string :=
  match s with
  | EmptyString => EmptyString
  | String c s' => if (N_of_ascii c <=? 32)%N then lstrip_c0 s' else s
  end.

(** Membership in [_UNSAFE_URL_BYTES_TO_REMOVE]. *)
Definition unsafe_url_char (c : ascii) : bool :=
  Ascii.eqb c "009" || Ascii.eqb c "013" || Ascii.eqb c "010".

(** [_splitnetloc(url, start)] *)
Definition splitnetloc (url : string) (start : nat) : string * string :=
  let delim :=
    foldl (fun delim c =>
             match find_from c start url with
             | Some wdelim => Nat.min delim wdelim
             | None => delim
             end) (String.length url) ["/"; "?"; "#"]%char in
  (str_take (delim - start) (str_drop start url), str_drop delim url).

Record SplitResult : Type := mkSplit {
  split_scheme : string;
  split_netloc : string;
  split_path : string;
  split_query : string;
  split_fragment : string
}.

Definition urlsplit (url0 : string) : result SplitResult :=
  let url := str_filter (fun c => negb (unsafe_url_char c)) (lstrip_c0 url0) in
  let '(scheme, url) :=
    match find_char ":" url with
    | Some (S i) =>
        if head_alpha url && str_forall scheme_char (str_take (S i) url)
        then (lower_str (str_take (S i) url), str_drop (S (S i)) url)
        else (EmptyString, url)
    | _ => (EmptyString, url)
    end in
  let '(netloc, url) :=
    if String.eqb (str_take 2 url) "//" then splitnetloc url 2
    else (EmptyString, url) in
  if xorb (contains "[" netloc) (contains "]" netloc)
  then Raise (ValueError "Invalid IPv6 URL")
  else
    let '(url, fragment) :=
      match cut "#" url with Some p => p | None => (url, EmptyString) end in
    let '(url, query) :=
      match cut "?" url with Some p => p | None => (url, EmptyString) end in
    Return (mkSplit scheme netloc url query fragment).

(** [_splitparams(url)] *)
Definition splitparams (url : string) : string * string :=
  let cut_at (i : nat) := (str_take i url, str_drop (S i) url) in
  if contains "/" url
  then match find_from ";" (default 0 (rfind_char "/" url)) url with
       | Some i => cut_at i
       | None => (url, EmptyString)
       end
  else cut_at (default 0 (find_char ";" url)).

Record ParseResult : Type := mkParse {
  scheme : string;
  netloc : string;
  path : string;
  params : string;
  query : string;
  fragment : string
}.

Definition urlparse (url : string) : result ParseResult :=
  match urlsplit url with
  | inl e => Raise e
  | inr (mkSplit scheme netloc url query fragment) =>
      let '(url, params) :=
        if str_in scheme uses_params && contains ";" url then splitparams url
        else (url, EmptyString) in
      Return (mkParse scheme netloc url params query fragment)
  end.

Definition nonempty (s : string) : bool := negb (String.eqb s "").

Definition urlunsplit (r : SplitResult) : string :=
  let url := split_path r in
  let url :=
    if nonempty (split_netloc r)
       || (nonempty (split_scheme r) && str_in (split_scheme r) uses_netloc
           && negb (String.eqb (str_take 2 url) "//"))
    then "//" +:+ split_netloc r
         +:+ (if nonempty url && negb (String.eqb (str_take 1 url) "/")
              then "/" +:+ url else url)
    else url in
  let url := if nonempty (split_scheme r) then split_scheme r +:+ ":" +:+ url else url in
  let url := if nonempty (split_query r) then url +:+ "?" +:+ split_query r else url in
  if nonempty (split_fragment r) then url +:+ "#" +:+ split_fragment r else url.

Definition urlunparse (r : ParseResult) : string :=
  let url := if nonempty (params r) then path r +:+ ";" +:+ params r else path r in
  urlunsplit (mkSplit (scheme r) (netloc r) url (query r) (fragment r)).

(** [parsed_url._replace(query=new_query)] *)
Definition replace_query (r : ParseResult) (new_query : string) : ParseResult :=
  mkParse (scheme r) (netloc r) (path r) (params r) new_query (fragment r).

Definition hex_val (c : ascii) : option N :=
  let n := N_of_ascii c in
  if ((48 <=? n) && (n <=? 57))%N then Some (n - 48)%N
  else if ((65 <=? n) && (n <=? 70))%N then Some (n - 55)%N
  else if ((97 <=? n) && (n <=? 102))%N then Some (n - 87)%N
  else None.

(** [unquote]: every [%xx] with two hexadecimal digits becomes the byte it
    names; [skip] counts the digits of an escape that are being passed. *)
Fixpoint unquote_from (skip : nat) (s : string) : string :=
  match s with
  | EmptyString => EmptyString
  | String c s' =>
      match skip with
      | S k => unquote_from k s'
      | O =>
          if Ascii.eqb c "%"
          then match s' with
               | String h (String l _) =>
                   match hex_val h, hex_val l with
                   | Some a, Some b =>
                       String (ascii_of_N (16 * a + b)) (unquote_from 2 s')
                   | _, _ => String c (unquote_from 0 s')
                   end
               | _ => String c (unquote_from 0 s')
               end
          else String c (unquote_from 0 s')
      end
  end.

Definition unquote (s : string) : string := unquote_from 0 s.

(** [s.replace('+', ' ')] *)
Fixpoint plus_to_space (s : string) : string :=
  match s with
  | EmptyString => EmptyString
  | String c s' => String (if Ascii.eqb c "+" then " "%char else c) (plus_to_space s')
  end.

(** The pair a field of the query string contributes to [parse_qsl], with
    [keep_blank_values] and [strict_parsing] both false. *)
Definition query_field (name_value : string) : option (string * string) :=
  if nonempty name_value
  then match cut "=" name_value with
       | Some (n, v) =>
           if nonempty v
           then Some (unquote (plus_to_space n), unquote (plus_to_space v))
           else None
       | None => None
       end
  else None.

Definition parse_qsl (qs : string) : list (string * string) :=
  let query_args := if nonempty qs then split "&" qs else [] in
  omap query_field query_args.

Definition parse_qs (qs : string) : gmap string (list string) :=
  foldl (fun parsed_result nv =>
           match parsed_result !! nv.1 with
           | Some values => <[nv.1 := values ++ [nv.2]]> parsed_result
           | None => <[nv.1 := [nv.2]]> parsed_result
           end) ∅ (parse_qsl qs).

(** The fields of a query string, as [parse_qsl] enumerates them, the
    decoded name of a field ([name] or [name=value]), and whether the field
    carries a non-empty value. *)
Definition query_fields (qs : string) : list string :=
  if nonempty qs then split "&" qs else [].

Definition field_name (name_value : string) : string :=
  unquote (plus_to_space (match cut "=" name_value with
                          | Some nv => nv.1
                          | None => name_value
                          end)).

Definition field_has_value (name_value : string) : bool :=
  match cut "=" name_value with
  | Some nv => nonempty nv.2
  | None => false
  end.

(** ** [ensure_auto_parameter] *)

Definition ensure_auto_parameter (url : string) : result string :=
  match urlparse url with
  | inl e => Raise e
  | inr parsed_url =>
      let query_params := parse_qs (query parsed_url) in
      match query_params !! "auto" with
      | None =>
          let new_query := query parsed_url in
          let new_query :=
            if nonempty new_query then new_query +:+ "&auto" else "auto" in
          Return (urlunparse (replace_query parsed_url new_query))
      | Some _ => Return url
      end
  end.

(** ** The HTTP client *)

(** What [session.get(url, proxy=proxy)] is called with. *)
Record request : Type := mkRequest {
  req_url : string;
  req_proxy : option string
}.

(** How a request ends.  [ConnectionFailed]: [session.get] raises (refused
    connection, time-out, invalid URL or proxy).  [Response status body]: a
    response arrived; [body] is [None] when reading or decoding it raises. *)
Inductive http_outcome : Type :=
  | ConnectionFailed (reason : string)
  | Response (status : Z) (body : option string).

(** The answer of the network to the request made for each server label
    during one cycle. *)
Definition network : Type := string → request → http_outcome.

(** ** [fetch_apache_status] *)

(** Up to the first [await]: the [proxies] dictionary, the two assignments
    to [os.environ], and the request handed to the session.  The session is
    created by [aiohttp.ClientSession()] without [trust_env], so it reads
    no proxy from the environment: the [proxy] argument is the only proxy
    of the request. *)
Definition open_request (url : string) (http_proxy https_proxy : option string)
  : M request :=
  fun st =>
    let proxies : gmap string string := ∅ in
    let '(proxies, st) :=
      match http_proxy with
      | Some p => (<["http" := p]> proxies, with_environ (insert "http_proxy" p) st)
      | None => (proxies, st)
      end in
    let '(proxies, st) :=
      match https_proxy with
      | Some p => (<["https" := p]> proxies, with_environ (insert "https_proxy" p) st)
      | None => (proxies, st)
      end in
    (st, Return (mkRequest url (proxies !! "http"))).

(** From the response on: [raise_for_status], the body, the parser. *)
Definition read_response (o : http_outcome) : result (gmap string string) :=
  match o with
  | ConnectionFailed reason => Raise (ClientError reason)
  | Response status body =>
      if (400 <=? status)%Z then Raise (ClientError "bad status")
      else match body with
           | None => Raise (ClientError "unreadable body")
           | Some data => Return (parse_status data)
           end
  end.

Definition fetch_apache_status (session : request → http_outcome)
  (url : string) (http_proxy https_proxy : option string)
  : M (gmap string string) :=
  req <- open_request url http_proxy https_proxy ;;
  lift (read_response (session req)).

(** ** [fetch_and_update] *)

Definition fetch_and_update (session : request → http_outcome)
  (server_label url : string) (http_proxy https_proxy : option string)
  (verbose : bool) : M unit :=
  try_except
    (server_status <- fetch_apache_status session url http_proxy https_proxy ;;
     update_metrics server_label server_status verbose)
    (fun e => print (ErrorFetching server_label e)).

(** ** [collect_metrics] *)

(** The arguments of one [fetch_and_update] task. *)
Record task : Type := mkTask {
  task_label : string;
  task_url : string;
  task_http_proxy : option string;
  task_https_proxy : option string
}.

(** [section.get(key, fallback)] *)
Definition section_get (options : gmap string string) (key : string)
  (fallback : option string) : option string :=
  match options !! key with
  | Some v => Some v
  | None => fallback
  end.

(** The loop over [config.sections()]: a configuration is the list of its
    sections, each with its options.  A missing [url] and a URL refused by
    [urlparse] raise out of the loop. *)
Fixpoint make_tasks (sections : list (string * gmap string string))
  (global_http_proxy global_https_proxy : option string) : result (list task) :=
  match sections with
  | [] => Return []
  | (server_label, options) :: rest =>
      if String.eqb server_label "config"
      then make_tasks rest global_http_proxy global_https_proxy
      else
        match options !! "url" with
        | None => Raise (KeyError "url")
        | Some u =>
            match ensure_auto_parameter u with
            | inl e => Raise e
            | inr url =>
                let server_http_proxy :=
                  section_get options "http_proxy" global_http_proxy in
                let server_https_proxy :=
                  section_get options "https_proxy" global_https_proxy in
                match make_tasks rest global_http_proxy global_https_proxy with
                | inl e => Raise e
                | inr tasks =>
                    Return (mkTask server_label url server_http_proxy
                              server_https_proxy :: tasks)
                end
            end
        end
  end.

Definition request_of (t : task) : request :=
  mkRequest (task_url t) (task_http_proxy t).

(** A task from its creation to its first [await]. *)
Definition task_start (t : task) (st : state) : state :=
  (open_request (task_url t) (task_http_proxy t) (task_https_proxy t) st).1.

(** The body of the [try] from the arrival of the response on. *)
Definition task_body (net : network) (verbose : bool) (t : task) : M unit :=
  server_status <- lift (read_response (net (task_label t) (request_of t))) ;;
  update_metrics (task_label t) server_status verbose.

(** A task from the arrival of its response to its end. *)
Definition task_finish (net : network) (verbose : bool) (t : task) (st : state)
  : state :=
  (try_except (task_body net verbose t)
     (fun e => print (ErrorFetching (task_label t) e)) st).1.

(** How the unit of work of a task ends, and what it prints. *)
Definition task_result (net : network) (verbose : bool) (t : task) : result unit :=
  (task_body net verbose t empty_state).2.

Definition task_output (net : network) (verbose : bool) (t : task) : list line :=
  stdout (task_finish net verbose t empty_state).

(** The line printed by the [except] clause of a task, if its body raises. *)
Definition failure_line (net : network) (verbose : bool) (t : task) : list line :=
  match task_result net verbose t with
  | inl e => [ErrorFetching (task_label t) e]
  | inr _ => []
  end.

(** [asyncio.gather] over the tasks: each task runs to its first [await] in
    the order of creation, then the tasks finish in the order [finished] in
    which their responses arrive. *)
Definition gather (net : network) (verbose : bool) (tasks finished : list task)
  (st : state) : state :=
  foldl (fun st t => task_finish net verbose t st)
        (foldl (fun st t => task_start t st) st tasks) finished.


(** The states in which a cycle that starts in [st] can end. *)
Definition cycle (config : list (string * gmap string string))
  (global_http_proxy global_https_proxy : option string) (verbose : bool)
  (net : network) (st st' : state) : Prop :=
  ∃ tasks finished,
    make_tasks config global_http_proxy global_https_proxy = Return tasks
    ∧ Permutation finished tasks
    ∧ st' = gather net verbose tasks finished st.

(** ** The proxy settings read by [main] *)

(** [config['config'].get(key, None)], with the text [None] read as no
    proxy. *)
Definition global_proxy (config : list (string * gmap string string))
  (key : string) : result (option string) :=
  match list_find (fun s => s.1 = "config") config with
  | None => Raise (KeyError "config")
  | Some (_, (_, options)) =>
      match options !! key with
      | Some v => Return (if String.eqb v "None" then None else Some v)
      | None => Return None
      end
  end.

(** The labels of the sections that are targets. *)
Definition target_labels (config : list (string * gmap string string)) : list string :=
  filter (fun l => l ≠ "config") (config.*1).


(** ** The projection table of [update_metrics] *)

(** For each field: its key in the status page, its metric, and whether
    the text is read with [int()] instead of [float()]. *)
Definition projection_table : list (string * string * bool) :=
  [("Total Accesses", apache_total_accesses, false);
   ("CPULoad", apache_cpu_load, false);
   ("Uptime", apache_uptime, false);
   ("ReqPerSec", apache_req_per_sec, false);
   ("BytesPerSec", apache_bytes_per_sec, false);
   ("BusyWorkers", apache_busy_workers, true);
   ("IdleWorkers", apache_idle_workers, true)].

(** The value that the gauge of a field is to receive: the coercion of the
    text of the field, or of the default [0] when the field is absent. *)
Definition field_value (server_status : gmap string string) (key : string)
  (as_int : bool) : result pyfloat :=
  let v := dict_get server_status key (VInt 0) in
  if as_int
  then match py_int v with
       | inl e => Raise e
       | inr n => float_of_int n
       end
  else py_float v.

(** The quotient [busy / idle] of two worker counts, [idle] positive. *)
Definition quotient (busy idle : Z) : pyfloat :=
  Finite (busy <? 0)%Z (Qred (Z.abs busy # Z.to_pos idle)).

(** The state that [update_metrics] leaves when it returns. *)
Definition projected (server_label : string) (verbose : bool)
  (total cpu uptime req bytes busy idle ratio : pyfloat) (st : state) : state :=
  mkState
    (<[(apache_worker_ratio, server_label) := ratio]>
      (<[(apache_idle_workers, server_label) := idle]>
        (<[(apache_busy_workers, server_label) := busy]>
          (<[(apache_bytes_per_sec, server_label) := bytes]>
            (<[(apache_req_per_sec, server_label) := req]>
              (<[(apache_uptime, server_label) := uptime]>
                (<[(apache_cpu_load, server_label) := cpu]>
                  (<[(apache_total_accesses, server_label) := total]>
                    (gauges st)))))))))
    (environ st)
    (stdout st ++ (if verbose then [Updating server_label] else [])).

(** ** What the loop of [collect_metrics] asks of a section *)



(** ** The environment and the loop of [main] *)

(** What a run of assignments leaves in a variable: the last value given,
    or what the variable held. *)
Definition last_given (given : list (option string)) (held : option string)
  : option string :=
  foldl (fun held p => match p with Some v => Some v | None => held end) held given.

(** The gauges and the environment in the loop of [main], after as many
    turns as there are networks: every turn is one cycle on the state that
    the turn before left.  Between two turns [main] sleeps, and announces it
    when [verbose] is set; that line is not one of a unit of work, the only
    lines which [stdout] records, and it touches neither the gauges nor the
    environment. *)
Fixpoint cycles (config : list (string * gmap string string))
  (global_http_proxy global_https_proxy : option string) (verbose : bool)
  (nets : list network) (st st' : state) : Prop :=
  match nets with
  | [] => st' = st
  | net :: nets' =>
      ∃ st1,
        cycle config global_http_proxy global_https_proxy verbose net st st1
        ∧ cycles config global_http_proxy global_https_proxy verbose nets' st1 st'
  end.

(** An ordinary status URL: [http://host/path] or [https://host/path]. *)
Definition plain_url (secure : bool) (host page : string) : string :=
  (if secure then "https" else "http") +:+ "://" +:+ host +:+ "/" +:+ page.

(** ** A sample configuration, network and state *)

Definition example_config : list (string * gmap string string) :=
  [("config", <["url" := "http://localhost/server-status"]>
                (<["scrape_time_delay" := "60"]> ∅));
   ("web1", <["url" := "http://web1/server-status?auto=1"]> ∅);
   ("web2", <["https_proxy" := "http://proxy:3128"]>
              (<["url" := "https://web2/server-status"]> ∅))].

(** [web1] answers with a page whose [CPULoad] is not a number; the request
    for [web2] times out. *)
Definition example_network : network :=
  fun server_label _ =>
    if String.eqb server_label "web1"
    then Response 200 (Some ("Total Accesses: 10" +:+ newline +:+ "CPULoad: abc"))
    else ConnectionFailed "timeout".

(** The tasks that [collect_metrics] creates for [example_config]. *)
Definition example_tasks : list task :=
  [mkTask "web1" "http://web1/server-status?auto=1" None None;
   mkTask "web2" "https://web2/server-status?auto" None (Some "http://proxy:3128")].

(** The gauges after an earlier cycle in which [web1] reported 5 accesses. *)
Definition example_state : state :=
  mkState (<[(apache_total_accesses, "web1") := Finite false 5]> ∅) ∅ [].

(** A status page whose [CPULoad] is not a number, and gauges in which
    [web1] has a CPU load of 7. *)
Definition example_status : gmap string string :=
  <["Uptime" := "42"]> (<["CPULoad" := "abc"]> ∅).

Definition example_gauges : state :=
  mkState (<[(apache_cpu_load, "web1") := Finite false 7]> ∅) ∅ [].

(** The end of a cycle in which the response for [web2] comes first. *)
Definition example_final : state :=
  gather example_network false example_tasks (reverse example_tasks) example_state.

(** * Properties *)

(** ** Text primitives *)

Section text.

Lemma prefix_colon_space s :
  starts_with colon_space s = true ↔ ∃ r, s = String ":" (String " " r).
Proof.
  unfold colon_space. split.
  - destruct s as [|a [|b r]]; cbn [starts_with].
    + discriminate.
    + rewrite andb_false_r. discriminate.
    + rewrite andb_true_r. intros [Ha Hb]%andb_prop.
      apply Ascii.eqb_eq in Ha as <-. apply Ascii.eqb_eq in Hb as <-. eauto.
  - intros [r ->]. reflexivity.
Qed.

Lemma prefix_colon_space_space r :
  starts_with colon_space (String " " r) = false.
Proof. reflexivity. Qed.

Lemma split_from_nonempty sep k s : split_from sep k s ≠ [].
Proof.
  revert k. induction s as [|c s IH]; intros k; cbn [split_from]; [done|].
  destruct k; [|apply IH].
  destruct (starts_with sep (String c s)); [done|].
  specialize (IH 0). destruct (split_from sep 0 s); done.
Qed.

Lemma split_cons_sep r :
  split colon_space (String ":" (String " " r)) = EmptyString :: split colon_space r.
Proof. reflexivity. Qed.

Lemma split_cons_other c r :
  starts_with colon_space (String c r) = false →
  split colon_space (String c r) = push_char c (split colon_space r).
Proof. intros H. unfold split. cbn [split_from]. by rewrite H. Qed.

Lemma length_push_char c ps : ps ≠ [] → length (push_char c ps) = length ps.
Proof. by destruct ps. Qed.

Lemma join_push_char sep c ps :
  ps ≠ [] → join sep (push_char c ps) = String c (join sep ps).
Proof. destruct ps as [|p [|q ps]]; done. Qed.

Lemma hd_push_char c ps :
  ps ≠ [] → hd EmptyString (push_char c ps) = String c (hd EmptyString ps).
Proof. by destruct ps. Qed.

(** The text is cut once for every occurrence of the separator. *)
Lemma length_split_colon_space s :
  length (split colon_space s) = S (occurrences colon_space s).
Proof.
  induction s as [|c s IH]; [done|].
  cbn [occurrences].
  destruct (starts_with colon_space (String c s)) eqn:Hp.
  - apply prefix_colon_space in Hp. destruct Hp as [r Hr]. injection Hr as -> ->.
    rewrite split_cons_sep. cbn [length]. f_equal.
    rewrite split_cons_other in IH by apply prefix_colon_space_space.
    rewrite length_push_char in IH by apply split_from_nonempty.
    rewrite IH. cbn [occurrences]. by rewrite prefix_colon_space_space.
  - rewrite split_cons_other by done.
    rewrite length_push_char by apply split_from_nonempty. by rewrite IH.
Qed.

(** Joining the pieces with the separator gives the text back. *)
Lemma join_split_colon_space s : join colon_space (split colon_space s) = s.
Proof.
  induction s as [|c s IH]; [done|].
  destruct (starts_with colon_space (String c s)) eqn:Hp.
  - apply prefix_colon_space in Hp. destruct Hp as [r Hr]. injection Hr as -> ->.
    rewrite split_cons_sep.
    rewrite split_cons_other in IH by apply prefix_colon_space_space.
    rewrite join_push_char in IH by apply split_from_nonempty.
    injection IH as IH.
    pose proof (split_from_nonempty colon_space 0 r) as Hne. fold (split colon_space r) in Hne.
    destruct (split colon_space r) as [|p ps] eqn:E; [done|].
    cbn [join]. destruct ps; cbn [join] in *; by rewrite IH.
  - rewrite split_cons_other by done.
    rewrite join_push_char by apply split_from_nonempty. by rewrite IH.
Qed.

Lemma split_no_occurrence s :
  occurrences colon_space s = 0 → split colon_space s = [s].
Proof.
  induction s as [|c s IH]; [done|].
  cbn [occurrences].
  destruct (starts_with colon_space (String c s)) eqn:Hp; [done|].
  intros Hs. rewrite split_cons_other by done. by rewrite IH.
Qed.

(** A text with one occurrence is cut into what stands before and what
    stands behind it. *)
Lemma split_one_occurrence s :
  occurrences colon_space s = 1 →
  split colon_space s = [before colon_space s; after colon_space s].
Proof.
  induction s as [|c s IH]; [done|].
  cbn [occurrences before after].
  destruct (starts_with colon_space (String c s)) eqn:Hp.
  - apply prefix_colon_space in Hp. destruct Hp as [r Hr]. injection Hr as -> ->.
    cbn [occurrences]. rewrite prefix_colon_space_space. intros [= Hr].
    rewrite split_cons_sep, split_no_occurrence by done. reflexivity.
  - intros Hs. rewrite split_cons_other by done. by rewrite IH.
Qed.

Lemma head_space_lstrip s : head_space (lstrip s) = false.
Proof.
  induction s as [|c s IH]; [done|]. cbn [lstrip].
  destruct (is_space c) eqn:Hc; [done|]. cbn [head_space]. done.
Qed.

Lemma head_space_rstrip s : head_space s = false → head_space (rstrip s) = false.
Proof.
  destruct s as [|c s]; [done|]. cbn [head_space rstrip]. intros Hc.
  destruct (rstrip s); [by rewrite Hc|done].
Qed.

Lemma last_space_rstrip s : last_space (rstrip s) = false.
Proof.
  induction s as [|c s IH]; [done|]. cbn [rstrip].
  destruct (rstrip s) as [|a r] eqn:E.
  - destruct (is_space c) eqn:Hc; [done|]. cbn [last_space]. done.
  - done.
Qed.

Lemma trimmed_strip s : trimmed (strip s).
Proof.
  split.
  - apply head_space_rstrip, head_space_lstrip.
  - apply last_space_rstrip.
Qed.

End text.

(** ** The status parser *)

Section parser.

Implicit Types (m : gmap string string) (es : list (string * string)).

Lemma entry_of_spec item :
  entry_of item =
  if one_separator item then Some (key_of item, value_of item) else None.
Proof.
  unfold entry_of, one_separator, key_of, value_of.
  destruct (Nat.eqb_spec (occurrences colon_space item) 1) as [H1|H1].
  - by rewrite split_one_occurrence.
  - pose proof (length_split_colon_space item) as Hl.
    destruct (split colon_space item) as [|a [|b [|c l]]]; cbn in Hl; try done.
    congruence.
Qed.

Lemma parse_item_entry m item :
  parse_item m item = from_option (put m) m (entry_of item).
Proof.
  unfold parse_item, entry_of.
  destruct (split colon_space item) as [|a [|b [|c l]]]; done.
Qed.

Lemma kept_entries_lines data :
  kept_entries data = (fun item => (key_of item, value_of item)) <$> kept_lines data.
Proof.
  unfold kept_entries, kept_lines.
  induction (split newline data) as [|item items IH]; [done|].
  cbn [omap list_omap]. rewrite filter_cons, entry_of_spec.
  destruct (one_separator item).
  - rewrite decide_True by done. cbn. by rewrite <- IH.
  - rewrite decide_False by done. apply IH.
Qed.

Lemma foldl_parse_item m items :
  foldl parse_item m items = foldl put m (omap entry_of items).
Proof.
  revert m. induction items as [|item items IH]; intros m; [done|].
  cbn [foldl omap list_omap]. rewrite IH, parse_item_entry.
  by destruct (entry_of item).
Qed.

Lemma parse_status_entries data :
  parse_status data = foldl put ∅ (kept_entries data).
Proof. apply foldl_parse_item. Qed.

Lemma foldl_put_lookup_notin es m k :
  k ∉ es.*1 → foldl put m es !! k = m !! k.
Proof.
  revert m. induction es as [|[k' v'] es IH]; intros m Hk; [done|].
  cbn [foldl]. rewrite fmap_cons, not_elem_of_cons in Hk. destruct Hk as [Hne Hk].
  rewrite IH by done. unfold put. cbn. by rewrite lookup_insert_ne.
Qed.

Lemma foldl_put_lookup_last es m i k v :
  es !! i = Some (k, v) →
  (∀ j v', i < j → es !! j ≠ Some (k, v')) →
  foldl put m es !! k = Some v.
Proof.
  revert m i. induction es as [|e es IH]; intros m i Hi Hlast; [done|].
  cbn [foldl]. destruct i as [|i].
  - injection Hi as ->. rewrite foldl_put_lookup_notin.
    + unfold put. cbn. apply lookup_insert_eq.
    + intros Hin. apply list_elem_of_fmap in Hin as [[k' v'] [Hk Hin]].
      cbn in Hk. subst k'. apply list_elem_of_lookup in Hin as [j Hj].
      apply (Hlast (S j) v'); [lia|done].
  - apply (IH _ i); [done|]. intros j v' Hj. apply (Hlast (S j) v'). lia.
Qed.

Lemma foldl_put_lookup_inv es m k v :
  foldl put m es !! k = Some v → m !! k = Some v ∨ (k, v) ∈ es.
Proof.
  revert m. induction es as [|[k' v'] es IH]; intros m Hk; [by left|].
  cbn [foldl] in Hk. apply IH in Hk as [Hk|Hk].
  - unfold put in Hk. cbn in Hk. rewrite lookup_insert in Hk.
    case_decide as Heq.
    + injection Hk as <-. subst k'. right. left.
    + by left.
  - right. by right.
Qed.

Lemma foldl_put_size es m :
  NoDup es.*1 → (∀ k, k ∈ es.*1 → m !! k = None) →
  size (foldl put m es) = size m + length es.
Proof.
  revert m. induction es as [|[k v] es IH]; intros m Hnd Hfresh.
  - cbn. lia.
  - cbn [foldl]. rewrite fmap_cons in Hnd. apply NoDup_cons in Hnd as [Hk Hnd].
    rewrite IH.
    + unfold put. cbn. rewrite map_size_insert_None; [lia|].
      apply Hfresh. rewrite fmap_cons. left.
    + done.
    + intros k' Hk'. unfold put. cbn. rewrite lookup_insert_ne.
      * apply Hfresh. rewrite fmap_cons. by right.
      * intros ->. done.
Qed.

(** C4, as stated, fails: a line in which the separator occurs twice
    contributes no entry. *)
Lemma line_with_two_separators_skipped :
  1 ≤ occurrences colon_space "Note: a: b"
  ∧ entry_of "Note: a: b" = None
  ∧ parse_status "Note: a: b" = ∅.
Proof. split; [|split]; vm_compute; first [lia | reflexivity]. Qed.

(** C4 (amended): a line yields an entry exactly when the separator occurs
    in it once; the line is then cut at that occurrence into a key and a
    value, which are entered trimmed.  Every other line, among them a line
    whose value holds a second separator, leaves the mapping as it is. *)
Theorem parse_item_one_separator m item :
  (occurrences colon_space item = 1 →
   ∃ key val,
     item = key +:+ colon_space +:+ val
     ∧ split colon_space item = [key; val]
     ∧ parse_item m item = <[strip key := strip val]> m)
  ∧ (occurrences colon_space item ≠ 1 → parse_item m item = m).
Proof.
  split; intros Hocc.
  - exists (before colon_space item), (after colon_space item).
    pose proof (split_one_occurrence item Hocc) as Hs.
    pose proof (join_split_colon_space item) as Hj. rewrite Hs in Hj.
    split; [by rewrite <- Hj at 1|]. split; [done|].
    unfold parse_item. by rewrite Hs.
  - rewrite parse_item_entry, entry_of_spec. unfold one_separator.
    by destruct (Nat.eqb_spec (occurrences colon_space item) 1).
Qed.

Lemma parse_item_one_separator_witness :
  parse_item ∅ "Uptime:  42 " = <["Uptime" := "42"]> ∅
  ∧ parse_item (∅ : gmap string string) "no separator" = ∅.
Proof.
  split.
  - destruct (proj1 (parse_item_one_separator ∅ "Uptime:  42 ") eq_refl)
      as (key & val & _ & Hs & ->).
    injection Hs as <- <-. reflexivity.
  - apply (proj2 (parse_item_one_separator ∅ "no separator")). cbv. lia.
Defined.

(** C5: the mapping has one entry per line with exactly one separator when
    the trimmed keys of those lines are pairwise distinct; its keys and
    values are trimmed; and of the lines sharing a trimmed key the last one
    decides the value. *)
Theorem parse_status_mapping data :
  (NoDup (key_of <$> kept_lines data) →
   size (parse_status data) = length (kept_lines data))
  ∧ (∀ k v, parse_status data !! k = Some v → trimmed k ∧ trimmed v)
  ∧ (∀ i item,
       kept_lines data !! i = Some item →
       (∀ j item', i < j → kept_lines data !! j = Some item' →
                   key_of item' ≠ key_of item) →
       parse_status data !! key_of item = Some (value_of item)).
Proof.
  rewrite parse_status_entries, kept_entries_lines. split; [|split].
  - intros Hnd. rewrite foldl_put_size.
    + rewrite map_size_empty, length_fmap. lia.
    + by rewrite <- list_fmap_compose.
    + intros k _. apply lookup_empty.
  - intros k v Hk. apply foldl_put_lookup_inv in Hk as [Hk|Hk].
    + by rewrite lookup_empty in Hk.
    + apply list_elem_of_fmap in Hk as [item [[= -> ->] _]].
      split; apply trimmed_strip.
  - intros i item Hi Hlast.
    apply (foldl_put_lookup_last _ _ i).
    + by rewrite list_lookup_fmap, Hi.
    + intros j v' Hj Hlook. rewrite list_lookup_fmap in Hlook.
      destruct (kept_lines data !! j) as [item'|] eqn:Hj'; [|done].
      injection Hlook as Hk _. by apply (Hlast j item').
Qed.

Lemma parse_status_mapping_witness :
  size (parse_status ("BusyWorkers: 3" +:+ newline +:+ "IdleWorkers: 7")) = 2
  ∧ parse_status ("BusyWorkers: 3" +:+ newline +:+ "Uptime: 9" +:+ newline
                  +:+ "BusyWorkers: 7") !! "BusyWorkers" = Some "7".
Proof.
  split.
  - apply (proj1 (parse_status_mapping
                    ("BusyWorkers: 3" +:+ newline +:+ "IdleWorkers: 7"))).
    apply (bool_decide_unpack _). vm_compute. exact I.
  - apply (proj2 (proj2 (parse_status_mapping _)) 2 "BusyWorkers: 7");
      [reflexivity|].
    intros [|[|[|j]]] item' Hj Hitem; try lia. vm_compute in Hitem. discriminate.
Defined.

End parser.

(** ** Effects on the gauges *)

Section effects.

Implicit Types (g : gmap (string * string) pyfloat) (k : string * string).

Lemma lookup_apply_op g o k : apply_op g o !! k = step_at k (g !! k) o.
Proof.
  destruct o as [k'|k' v]; cbn [apply_op step_at].
  - destruct (decide (k' = k)) as [->|Hne].
    + destruct (g !! k) eqn:Hk; [by rewrite Hk|]. by rewrite lookup_insert_eq.
    + destruct (g !! k'); [done|]. by rewrite lookup_insert_ne.
  - rewrite lookup_insert. by repeat case_decide.
Qed.

Lemma lookup_apply_ops g ops k :
  foldl apply_op g ops !! k = foldl (step_at k) (g !! k) ops.
Proof.
  revert g. induction ops as [|o ops IH]; intros g; [done|].
  cbn [foldl]. by rewrite IH, lookup_apply_op.
Qed.

Lemma step_at_elsewhere k x ops :
  Forall (fun o => op_child o ≠ k) ops → foldl (step_at k) x ops = x.
Proof.
  revert x. induction ops as [|o ops IH]; intros x Hops; [done|].
  apply Forall_cons in Hops as [Ho Hops]. cbn [foldl]. rewrite IH by done.
  destruct o; cbn in *; by rewrite decide_False.
Qed.

(** On one child a run of operations acts as nothing, as a creation, or as
    the storing of one value. *)
Lemma step_at_shape k ops :
  (∀ x, foldl (step_at k) x ops = x)
  ∨ (∀ x, foldl (step_at k) x ops = Some (default float_zero x))
  ∨ (∃ v, ∀ x, foldl (step_at k) x ops = Some v).
Proof.
  induction ops as [|o ops IH] using rev_ind; [by left|].
  destruct o as [k'|k' v];
    (destruct (decide (k' = k)) as [->|Hne];
     [|destruct IH as [IH|[IH|[w IH]]];
       [left|right; left|right; right; exists w];
       intros x; rewrite foldl_snoc; cbn [step_at];
       by rewrite decide_False, IH]).
  - destruct IH as [IH|[IH|[w IH]]].
    + right; left. intros x. rewrite foldl_snoc. cbn [step_at].
      by rewrite decide_True, IH.
    + right; left. intros x. rewrite foldl_snoc. cbn [step_at].
      by rewrite decide_True, IH.
    + right; right. exists w. intros x. rewrite foldl_snoc. cbn [step_at].
      by rewrite decide_True, IH.
  - right; right. exists v. intros x. rewrite foldl_snoc. cbn [step_at].
    by rewrite decide_True.
Qed.

Lemma step_at_idempotent k x ops :
  foldl (step_at k) (foldl (step_at k) x ops) ops = foldl (step_at k) x ops.
Proof.
  destruct (step_at_shape k ops) as [H|[H|[v H]]]; by rewrite !H.
Qed.

Lemma apply_ops_idempotent g ops :
  foldl apply_op (foldl apply_op g ops) ops = foldl apply_op g ops.
Proof.
  apply map_eq. intros k. rewrite !lookup_apply_ops. apply step_at_idempotent.
Qed.

End effects.

(** ** Computations confined to one label value *)

Section confinement.

Context {A B : Type}.
Implicit Types (hostname metric : string) (L : line → Prop).

Lemma traced_bind (m : M A) (k : A → M B) ops1 out1 a ops2 out2 r :
  traced m ops1 out1 (Return a) → traced (k a) ops2 out2 r →
  traced (bind m k) (ops1 ++ ops2) (out1 ++ out2) r.
Proof.
  intros Hm Hk st. unfold bind. rewrite Hm. unfold Return. rewrite Hk. cbn.
  by rewrite foldl_app, app_assoc.
Qed.

Lemma traced_bind_raise (m : M A) (k : A → M B) ops out e :
  traced m ops out (Raise e) → traced (bind m k) ops out (Raise e).
Proof. intros Hm st. unfold bind. by rewrite Hm. Qed.

Lemma confined_bind hostname L (m : M A) (k : A → M B) :
  confined hostname L m → (∀ a, confined hostname L (k a)) →
  confined hostname L (bind m k).
Proof.
  intros (ops1 & out1 & [e|a] & Hm & Hops1 & Hout1) Hk.
  - exists ops1, out1, (Raise e). split; [by apply traced_bind_raise|done].
  - destruct (Hk a) as (ops2 & out2 & r & Hka & Hops2 & Hout2).
    exists (ops1 ++ ops2), (out1 ++ out2), r.
    split; [by eapply traced_bind|]. by rewrite !Forall_app.
Qed.

Lemma confined_bind_lift hostname L (r : result A) (k : A → M B) :
  (∀ a, r = Return a → confined hostname L (k a)) →
  confined hostname L (bind (lift r) k).
Proof.
  intros Hk. destruct r as [e|a].
  - exists [], [], (Raise e). split; [|done].
    intros st. unfold bind, lift. cbn. by rewrite app_nil_r; destruct st.
  - destruct (Hk a eq_refl) as (ops & out & r & Hka & Hops & Hout).
    exists ops, out, r. split; [|done].
    intros st. unfold bind, lift. apply Hka.
Qed.

End confinement.

Lemma confined_weaken {A} hostname (L L' : line → Prop) (m : M A) :
  (∀ l, L l → L' l) → confined hostname L m → confined hostname L' m.
Proof.
  intros HL (ops & out & r & Hm & Hops & Hout). exists ops, out, r.
  split; [done|]. split; [done|]. eapply Forall_impl; eauto.
Qed.

Section confinement_primitives.

Implicit Types (hostname metric : string) (L : line → Prop).

Lemma state_eta st : mkState (gauges st) (environ st) (stdout st) = st.
Proof. by destruct st. Qed.

Lemma traced_labels metric hostname :
  traced (labels metric hostname) [Touch (metric, hostname)] []
         (Return (metric, hostname)).
Proof.
  intros st. unfold labels. cbn. rewrite app_nil_r.
  destruct (gauges st !! (metric, hostname)); [by rewrite state_eta|done].
Qed.

Lemma confined_bind_labels {B} hostname L metric (k : string * string → M B) :
  metric ∈ metric_names → confined hostname L (k (metric, hostname)) →
  confined hostname L (bind (labels metric hostname) k).
Proof.
  intros Hmetric (ops & out & r & Hk & Hops & Hout).
  exists ([Touch (metric, hostname)] ++ ops), ([] ++ out), r. split.
  - eapply traced_bind; [apply traced_labels|done].
  - split; [|done]. apply Forall_app. split; [|done]. by apply Forall_singleton.
Qed.

Lemma confined_gauge_set hostname L metric value :
  metric ∈ metric_names → confined hostname L (gauge_set (metric, hostname) value).
Proof.
  intros Hmetric. unfold gauge_set. destruct (to_float value) as [e|f].
  - exists [], [], (Raise e). split; [|done].
    intros st. cbn. by rewrite app_nil_r, state_eta.
  - exists [Store (metric, hostname) f], [], (Return tt). split.
    + intros st. cbn. by rewrite app_nil_r.
    + split; [|done]. by apply Forall_singleton.
Qed.

Lemma confined_ret {A} hostname L (a : A) : confined hostname L (ret a).
Proof.
  exists [], [], (Return a). split; [|done].
  intros st. unfold ret. cbn. by rewrite app_nil_r, state_eta.
Qed.

Lemma confined_print hostname L l :
  L l → confined hostname L (print l).
Proof.
  intros Hl. exists [], [l], (Return tt). split; [done|].
  split; [done|]. by apply Forall_singleton.
Qed.

Lemma confined_try_except hostname L body handler :
  confined hostname L body → (∀ e, confined hostname L (handler e)) →
  confined hostname L (try_except body handler).
Proof.
  intros (ops1 & out1 & [e|[]] & Hm & Hops1 & Hout1) Hh.
  - destruct (Hh e) as (ops2 & out2 & r & Hhe & Hops2 & Hout2).
    exists (ops1 ++ ops2), (out1 ++ out2), r. split.
    + intros st. unfold try_except. rewrite Hm. unfold Raise. rewrite Hhe. cbn.
      by rewrite foldl_app, app_assoc.
    + by rewrite !Forall_app.
  - exists ops1, out1, (Return tt). split; [|done].
    intros st. unfold try_except. by rewrite Hm.
Qed.

Lemma metric_names_elem metric :
  metric ∈ metric_names ↔
  metric = apache_total_accesses ∨ metric = apache_cpu_load
  ∨ metric = apache_uptime ∨ metric = apache_req_per_sec
  ∨ metric = apache_bytes_per_sec ∨ metric = apache_worker_ratio
  ∨ metric = apache_busy_workers ∨ metric = apache_idle_workers.
Proof. unfold metric_names. rewrite !elem_of_cons, elem_of_nil. tauto. Qed.

(** [update_metrics] touches the gauges of its own label only. *)
Lemma update_metrics_confined server_label server_status verbose :
  confined server_label (eq (Updating server_label))
           (update_metrics server_label server_status verbose).
Proof.
  unfold update_metrics.
  repeat first
    [ apply confined_bind_labels; [apply metric_names_elem; tauto|]
    | apply confined_gauge_set; apply metric_names_elem; tauto
    | apply confined_bind_lift; intros ? _
    | apply confined_ret
    | apply confined_bind; [|intros ?]
    | match goal with |- confined _ _ (if ?b then _ else _) => destruct b end
    | by apply confined_print ].
Qed.

End confinement_primitives.

(** ** One task *)

Section one_task.

Context (net : network) (verbose : bool).
Implicit Types (t : task) (st : state).

Lemma task_body_traced t :
  ∃ ops out,
    traced (task_body net verbose t) ops out (task_result net verbose t)
    ∧ Forall (fun o => (op_child o).2 = task_label t
                       ∧ (op_child o).1 ∈ metric_names) ops
    ∧ Forall (eq (Updating (task_label t))) out.
Proof.
  assert (confined (task_label t) (eq (Updating (task_label t)))
                   (task_body net verbose t))
    as (ops & out & r & Hm & Hops & Hout).
  { unfold task_body. apply confined_bind_lift. intros d _.
    apply update_metrics_confined. }
  exists ops, out. split; [|done].
  unfold task_result. by rewrite (Hm empty_state).
Qed.

(** The result of a unit of work does not depend on the state. *)
Lemma task_body_result t st :
  (task_body net verbose t st).2 = task_result net verbose t.
Proof.
  destruct (task_body_traced t) as (ops & out & Hm & _). by rewrite (Hm st).
Qed.

Lemma task_finish_traced t :
  ∃ ops out,
    Forall (fun o => (op_child o).2 = task_label t
                     ∧ (op_child o).1 ∈ metric_names) ops
    ∧ Forall (eq (Updating (task_label t))) out
    ∧ ∀ st, task_finish net verbose t st
            = mkState (foldl apply_op (gauges st) ops) (environ st)
                      (stdout st ++ out ++ failure_line net verbose t).
Proof.
  destruct (task_body_traced t) as (ops & out & Hm & Hops & Hout).
  exists ops, out. split; [done|]. split; [done|].
  intros st. unfold task_finish, try_except, failure_line. rewrite (Hm st).
  destruct (task_result net verbose t) as [e|[]]; cbn.
  - by rewrite <- app_assoc.
  - by rewrite app_nil_r.
Qed.


Lemma task_finish_effect t :
  ∃ ops,
    Forall (fun o => (op_child o).2 = task_label t
                     ∧ (op_child o).1 ∈ metric_names) ops
    ∧ ∀ st, task_finish net verbose t st
            = mkState (foldl apply_op (gauges st) ops) (environ st)
                      (stdout st ++ task_output net verbose t).
Proof.
  destruct (task_finish_traced t) as (ops & out & Hops & _ & Hfin).
  exists ops. split; [done|]. intros st.
  unfold task_output. by rewrite !Hfin.
Qed.


Lemma task_finish_environ t st :
  environ (task_finish net verbose t st) = environ st.
Proof. destruct (task_finish_effect t) as (ops & _ & Hfin). by rewrite Hfin. Qed.

(** A task leaves the children of the other label values alone. *)
Lemma task_finish_frame t st metric hostname :
  hostname ≠ task_label t →
  gauges (task_finish net verbose t st) !! (metric, hostname)
  = gauges st !! (metric, hostname).
Proof.
  intros Hne. destruct (task_finish_effect t) as (ops & Hops & Hfin).
  rewrite Hfin. cbn. rewrite lookup_apply_ops. apply step_at_elsewhere.
  eapply Forall_impl; [exact Hops|]. intros o [Ho _] Heq.
  rewrite Heq in Ho. cbn in Ho. congruence.
Qed.

(** It creates and stores children of the eight metrics only. *)
Lemma task_finish_frame_metric t st metric hostname :
  metric ∉ metric_names →
  gauges (task_finish net verbose t st) !! (metric, hostname)
  = gauges st !! (metric, hostname).
Proof.
  intros Hne. destruct (task_finish_effect t) as (ops & Hops & Hfin).
  rewrite Hfin. cbn. rewrite lookup_apply_ops. apply step_at_elsewhere.
  eapply Forall_impl; [exact Hops|]. intros o [_ Ho] Heq.
  rewrite Heq in Ho. cbn in Ho. done.
Qed.

(** What it leaves in a child depends on that child alone. *)
Lemma task_finish_local t st1 st2 k :
  gauges st1 !! k = gauges st2 !! k →
  gauges (task_finish net verbose t st1) !! k
  = gauges (task_finish net verbose t st2) !! k.
Proof.
  intros Heq. destruct (task_finish_effect t) as (ops & _ & Hfin).
  rewrite !Hfin. cbn. rewrite !lookup_apply_ops. by rewrite Heq.
Qed.

Lemma task_finish_idempotent t st :
  gauges (task_finish net verbose t (task_finish net verbose t st))
  = gauges (task_finish net verbose t st).
Proof.
  destruct (task_finish_effect t) as (ops & _ & Hfin).
  rewrite !Hfin. cbn. apply apply_ops_idempotent.
Qed.



End one_task.

(** ** One cycle *)

Section one_cycle.

Context (net : network) (verbose : bool).
Implicit Types (t : task) (st : state) (ts : list task)
  (config : list (string * gmap string string)).

Local Abbreviation finish := (fun st t => task_finish net verbose t st).
Local Abbreviation start := (fun st t => task_start t st).

Lemma task_start_gauges t st : gauges (task_start t st) = gauges st.
Proof.
  unfold task_start, open_request.
  by destruct (task_http_proxy t), (task_https_proxy t).
Qed.


(** [fetch_and_update] is the start of a task followed by its end. *)
Lemma fetch_and_update_phases t st :
  (fetch_and_update (net (task_label t)) (task_label t) (task_url t)
     (task_http_proxy t) (task_https_proxy t) verbose st).1
  = task_finish net verbose t (task_start t st).
Proof.
  unfold fetch_and_update, fetch_apache_status, task_finish, task_body,
    task_start, try_except, bind, lift, request_of, open_request.
  by destruct (task_http_proxy t), (task_https_proxy t).
Qed.

Lemma foldl_start_gauges ts st : gauges (foldl start st ts) = gauges st.
Proof.
  revert st. induction ts as [|t ts IH]; intros st; [done|].
  cbn [foldl]. by rewrite IH, task_start_gauges.
Qed.



Lemma foldl_finish_other ts st metric hostname :
  hostname ∉ task_label <$> ts →
  gauges (foldl finish st ts) !! (metric, hostname)
  = gauges st !! (metric, hostname).
Proof.
  revert st. induction ts as [|t ts IH]; intros st Hnot; [done|].
  rewrite fmap_cons, not_elem_of_cons in Hnot. destruct Hnot as [Hne Hnot].
  cbn [foldl]. rewrite IH by done. by apply task_finish_frame.
Qed.

Lemma foldl_finish_metric ts st metric hostname :
  metric ∉ metric_names →
  gauges (foldl finish st ts) !! (metric, hostname)
  = gauges st !! (metric, hostname).
Proof.
  intros Hm. revert st. induction ts as [|t ts IH]; intros st; [done|].
  cbn [foldl]. rewrite IH. by apply task_finish_frame_metric.
Qed.

Lemma foldl_finish_own ts st t metric :
  NoDup (task_label <$> ts) → t ∈ ts →
  gauges (foldl finish st ts) !! (metric, task_label t)
  = gauges (task_finish net verbose t st) !! (metric, task_label t).
Proof.
  revert st. induction ts as [|t' ts IH]; intros st Hnd Ht.
  - by apply elem_of_nil in Ht.
  - rewrite fmap_cons in Hnd. apply NoDup_cons in Hnd as [Hfresh Hnd].
    cbn [foldl]. apply elem_of_cons in Ht as [->|Ht].
    + by apply foldl_finish_other.
    + rewrite IH by done. apply task_finish_local, task_finish_frame.
      intros Heq. apply Hfresh. rewrite <- Heq. by apply list_elem_of_fmap_2.
Qed.

(** In the state a cycle ends in, the gauges of a target are those which
    its own unit of work leaves when run alone on the initial state. *)
Lemma gather_gauges_own ts finished st t metric :
  NoDup (task_label <$> ts) → finished ≡ₚ ts → t ∈ ts →
  gauges (gather net verbose ts finished st) !! (metric, task_label t)
  = gauges (task_finish net verbose t st) !! (metric, task_label t).
Proof.
  intros Hnd Hperm Ht. unfold gather. rewrite foldl_finish_own.
  - apply task_finish_local. by rewrite foldl_start_gauges.
  - by rewrite Hperm.
  - by rewrite Hperm.
Qed.

Lemma gather_gauges_other ts finished st metric hostname :
  finished ≡ₚ ts → hostname ∉ task_label <$> ts →
  gauges (gather net verbose ts finished st) !! (metric, hostname)
  = gauges st !! (metric, hostname).
Proof.
  intros Hperm Hnot. unfold gather. rewrite foldl_finish_other.
  - by rewrite foldl_start_gauges.
  - by rewrite Hperm.
Qed.


End one_cycle.

Section configuration.

Implicit Types (config : list (string * gmap string string)).

Lemma make_tasks_labels config ghp ghsp ts :
  make_tasks config ghp ghsp = Return ts →
  task_label <$> ts = target_labels config.
Proof.
  unfold target_labels. revert ts.
  induction config as [|[server_label options] config IH]; intros ts Hts.
  - by injection Hts as <-.
  - cbn [make_tasks] in Hts. rewrite fmap_cons. cbn [fst].
    destruct (String.eqb_spec server_label "config") as [->|Hne].
    + rewrite filter_cons_False by (intros H; by apply H). by apply IH.
    + rewrite filter_cons_True by done.
      destruct (options !! "url") as [u|]; [|done].
      destruct (ensure_auto_parameter u) as [e|url]; [done|].
      destruct (make_tasks config ghp ghsp) as [e|ts']; [done|].
      injection Hts as <-. rewrite fmap_cons. cbn. f_equal. by apply IH.
Qed.


Lemma target_labels_NoDup config :
  NoDup config.*1 → NoDup (target_labels config).
Proof. apply NoDup_filter. Qed.

Lemma config_not_target config : "config" ∉ target_labels config.
Proof. unfold target_labels. rewrite list_elem_of_filter. by intros [H _]. Qed.

End configuration.

(** ** The collection cycle *)

Section collector.

Implicit Types (config : list (string * gmap string string))
  (net : network) (st : state).


Lemma cycle_inv config ghp ghsp verbose net st st' ts :
  make_tasks config ghp ghsp = Return ts →
  cycle config ghp ghsp verbose net st st' →
  ∃ finished, finished ≡ₚ ts ∧ st' = gather net verbose ts finished st.
Proof.
  intros Hts (ts' & finished & Hts' & Hperm & ->).
  rewrite Hts in Hts'. injection Hts' as <-. eauto.
Qed.



(** C10: the section named [config] is never a target: no task, hence no
    request, is made for it, and a cycle leaves every gauge child whose
    [hostname] is [config] as it was, whatever that section holds. *)
Theorem config_section_is_no_target config ghp ghsp verbose net st st' :
  cycle config ghp ghsp verbose net st st' →
  (∃ tasks,
      make_tasks config ghp ghsp = Return tasks
      ∧ ∀ t, t ∈ tasks → task_label t ≠ "config")
  ∧ ∀ metric, gauges st' !! (metric, "config") = gauges st !! (metric, "config").
Proof.
  intros (ts & finished & Hts & Hperm & ->).
  assert ("config" ∉ task_label <$> ts) as Hnot.
  { rewrite (make_tasks_labels _ _ _ _ Hts). apply config_not_target. }
  split.
  - exists ts. split; [done|]. intros t Ht Heq. apply Hnot.
    rewrite <- Heq. by apply list_elem_of_fmap_2.
  - intros metric. by apply gather_gauges_other.
Qed.



Lemma example_cycle :
  cycle example_config None None false example_network example_state example_final.
Proof.
  exists example_tasks, (reverse example_tasks).
  split; [vm_compute; reflexivity|]. split; [|reflexivity].
  apply Permutation_swap.
Qed.

Lemma config_section_is_no_target_witness :
  cycle example_config None None false example_network example_state example_final
  ∧ gauges example_final !! (apache_uptime, "config")
    = gauges example_state !! (apache_uptime, "config").
Proof.
  split; [exact example_cycle|].
  exact (proj2 (config_section_is_no_target _ _ _ _ _ _ _ example_cycle)
               apache_uptime).
Defined.

(** C1, as stated, fails: the unit of work of [web1] raises while it
    projects [CPULoad], yet the gauge of the field projected before it holds
    the new value, not the one it had before the cycle. *)
Lemma failed_projection_changes_gauges :
  cycle example_config None None false example_network example_state example_final
  ∧ mkTask "web1" "http://web1/server-status?auto=1" None None ∈ example_tasks
  ∧ task_result example_network false
      (mkTask "web1" "http://web1/server-status?auto=1" None None)
    = Raise (ValueError "abc")
  ∧ ErrorFetching "web1" (ValueError "abc") ∈ stdout example_final
  ∧ gauges example_state !! (apache_total_accesses, "web1") = Some (Finite false 5)
  ∧ gauges example_final !! (apache_total_accesses, "web1") = Some (Finite false 10).
Proof.
  split; [exact example_cycle|]. split; [by left|]. split; [by vm_compute|].
  split; [|split; by vm_compute].
  assert (stdout example_final
          = [ErrorFetching "web2" (ClientError "timeout");
             ErrorFetching "web1" (ValueError "abc")]) as ->
    by (vm_compute; reflexivity).
  apply elem_of_cons. right. apply elem_of_cons. by left.
Qed.

(** C1 (amended): when the fetch of a target fails in a cycle (refused or
    timed-out connection, status 400 or above, unreadable body), every gauge
    of its label is left exactly as it was before the cycle.  When the fetch
    succeeds, the gauges of its label are those which [update_metrics] leaves
    on the parsed status, whether it returns or raises: what it stored before
    a coercion raised stays stored. *)
Theorem failed_fetch_keeps_gauges config ghp ghsp verbose net st st' tasks t :
  NoDup config.*1 →
  make_tasks config ghp ghsp = Return tasks →
  cycle config ghp ghsp verbose net st st' →
  t ∈ tasks →
  (∀ e, read_response (net (task_label t) (request_of t)) = Raise e →
        ∀ metric, gauges st' !! (metric, task_label t)
                  = gauges st !! (metric, task_label t))
  ∧ (∀ server_status,
        read_response (net (task_label t) (request_of t)) = Return server_status →
        ∀ metric,
          gauges st' !! (metric, task_label t)
          = gauges (update_metrics (task_label t) server_status verbose st).1
              !! (metric, task_label t)).
Proof.
  intros Hnd Hts Hcycle Ht.
  destruct (cycle_inv _ _ _ _ _ _ _ _ Hts Hcycle) as (finished & Hperm & ->).
  assert (NoDup (task_label <$> tasks)) as Hnd'.
  { rewrite (make_tasks_labels _ _ _ _ Hts). by apply target_labels_NoDup. }
  split.
  - intros e He metric. rewrite gather_gauges_own by done.
    unfold task_finish, try_except, task_body, bind, lift. by rewrite He.
  - intros server_status Hs metric. rewrite gather_gauges_own by done.
    unfold task_finish, try_except, task_body, bind, lift. rewrite Hs. cbn.
    by destruct (update_metrics (task_label t) server_status verbose st)
      as [st1 [e|[]]].
Qed.

Lemma failed_fetch_keeps_gauges_witness :
  gauges example_final !! (apache_uptime, "web2")
  = gauges example_state !! (apache_uptime, "web2").
Proof.
  pose (t2 := mkTask "web2" "https://web2/server-status?auto" None
                     (Some "http://proxy:3128")).
  refine (proj1 (failed_fetch_keeps_gauges example_config None None false
                   example_network example_state example_final
                   example_tasks t2 _ _ example_cycle _)
                (ClientError "timeout") _ apache_uptime).
  - apply (bool_decide_unpack _). vm_compute. exact I.
  - vm_compute. reflexivity.
  - apply elem_of_cons. right. apply elem_of_cons. left. reflexivity.
  - reflexivity.
Defined.

(** C9: projecting the same mapping a second time leaves every gauge as
    the first projection left it and ends the same way; and a second cycle
    that fetches the same content as the first leaves every gauge as the
    first cycle left it. *)
Theorem update_metrics_idempotent server_label server_status verbose st :
  (let once := update_metrics server_label server_status verbose st in
   let twice := update_metrics server_label server_status verbose once.1 in
   gauges twice.1 = gauges once.1 ∧ twice.2 = once.2)
  ∧ ∀ config ghp ghsp net st1 st2,
      NoDup config.*1 →
      cycle config ghp ghsp verbose net st st1 →
      cycle config ghp ghsp verbose net st1 st2 →
      gauges st2 = gauges st1.
Proof.
  split.
  - destruct (update_metrics_confined server_label server_status verbose)
      as (ops & out & r & Hm & _).
    cbn zeta. rewrite !Hm. cbn. split; [apply apply_ops_idempotent|done].
  - intros config ghp ghsp net st1 st2 Hnd (ts & fin1 & Hts & Hperm1 & ->) Hcycle2.
    destruct (cycle_inv _ _ _ _ _ _ _ _ Hts Hcycle2) as (fin2 & Hperm2 & ->).
    assert (NoDup (task_label <$> ts)) as Hnd'.
    { rewrite (make_tasks_labels _ _ _ _ Hts). by apply target_labels_NoDup. }
    apply map_eq. intros [metric hostname].
    destruct (decide (hostname ∈ task_label <$> ts)) as [Hin|Hnot].
    + apply list_elem_of_fmap in Hin as (t & -> & Ht).
      rewrite gather_gauges_own by done.
      rewrite (task_finish_local net verbose t _ (task_finish net verbose t st)).
      * rewrite task_finish_idempotent. by rewrite gather_gauges_own.
      * by rewrite gather_gauges_own.
    + by rewrite !gather_gauges_other.
Qed.

Lemma update_metrics_idempotent_witness :
  gauges (gather example_network false example_tasks example_tasks example_final)
  = gauges example_final.
Proof.
  refine (proj2 (update_metrics_idempotent "web1" ∅ false example_state)
            example_config None None example_network example_final _ _
            example_cycle _).
  - apply (bool_decide_unpack _). vm_compute. exact I.
  - exists example_tasks, example_tasks. split; [vm_compute; reflexivity|].
    split; reflexivity.
Defined.

End collector.

(** ** [update_metrics], statement by statement *)

Section projection.

Implicit Types (st : state) (metric server_label : string)
  (server_status : gmap string string).

Lemma bind_ret_eq {A B} (m : M A) (k : A → M B) st st' a :
  m st = (st', Return a) → bind m k st = k a st'.
Proof. intros H. unfold bind. by rewrite H. Qed.

Lemma bind_raise_eq {A B} (m : M A) (k : A → M B) st st' e :
  m st = (st', Raise e) → bind m k st = (st', Raise e).
Proof. intros H. unfold bind. by rewrite H. Qed.

Lemma verbose_print_eq (verbose : bool) server_label st :
  (if verbose then print (Updating server_label) else ret tt) st
  = (mkState (gauges st) (environ st)
             (stdout st ++ (if verbose then [Updating server_label] else [])),
     Return tt).
Proof. destruct verbose; [done|]. unfold ret. by rewrite app_nil_r, state_eta. Qed.

Lemma float_line_return metric server_label r v st :
  r = Return v →
  (g <- labels metric server_label ;; x <- lift r ;; gauge_set g (NFloat x)) st
  = (with_gauges (insert (metric, server_label) v) st, Return tt).
Proof.
  intros ->. unfold bind, lift, gauge_set, labels, with_gauges. cbn.
  destruct (gauges st !! (metric, server_label)); cbn; [done|].
  by rewrite insert_insert_eq.
Qed.

Lemma float_line_raise metric server_label r e st :
  r = Raise e →
  (g <- labels metric server_label ;; x <- lift r ;; gauge_set g (NFloat x)) st
  = ((labels metric server_label st).1, Raise e).
Proof. intros ->. reflexivity. Qed.

Lemma int_line_return metric server_label n f st :
  float_of_int n = Return f →
  (g <- labels metric server_label ;; gauge_set g (NInt n)) st
  = (with_gauges (insert (metric, server_label) f) st, Return tt).
Proof.
  intros Hf. unfold bind, gauge_set, labels, with_gauges. cbn. rewrite Hf.
  destruct (gauges st !! (metric, server_label)); cbn; [done|].
  by rewrite insert_insert_eq.
Qed.

Lemma int_line_raise metric server_label n e st :
  float_of_int n = Raise e →
  (g <- labels metric server_label ;; gauge_set g (NInt n)) st
  = ((labels metric server_label st).1, Raise e).
Proof. intros Hf. unfold bind, gauge_set. cbn. by rewrite Hf. Qed.

Lemma float_overflow_pos : (0 < float_overflow)%Z.
Proof. reflexivity. Qed.

(** The quotient of two worker counts does not overflow when the count of
    busy workers fits a [float]. *)
Lemma int_truediv_quotient busy idle f :
  float_of_int busy = Return f → (0 < idle)%Z →
  int_truediv busy idle = Return (quotient busy idle).
Proof.
  unfold float_of_int, int_truediv, quotient. intros Hf Hidle.
  destruct (float_overflow <=? Z.abs busy)%Z eqn:Hb; [done|].
  apply Z.leb_gt in Hb.
  destruct (Z.eqb_spec idle 0) as [->|_]; [lia|].
  rewrite (Z.abs_eq idle) by lia.
  assert ((idle <? 0)%Z = false) as -> by lia. rewrite xorb_false_r.
  destruct (Qle_bool _ _) eqn:Hq; [|done].
  apply Qle_bool_iff in Hq. rewrite Qred_correct in Hq.
  unfold Qle in Hq. cbn in Hq. rewrite Z2Pos.id in Hq by done.
  pose proof float_overflow_pos. nia.
Qed.

Lemma float_set_return metric server_label v st :
  (g <- labels metric server_label ;; gauge_set g (NFloat v)) st
  = (with_gauges (insert (metric, server_label) v) st, Return tt).
Proof.
  unfold bind, gauge_set, labels, with_gauges. cbn.
  destruct (gauges st !! (metric, server_label)); cbn; [done|].
  by rewrite insert_insert_eq.
Qed.

Lemma lookup_labels_ne metric server_label st k :
  (metric, server_label) ≠ k →
  gauges (labels metric server_label st).1 !! k = gauges st !! k.
Proof.
  intros Hne. unfold labels. cbn.
  destruct (gauges st !! (metric, server_label)); [done|].
  cbn. by rewrite lookup_insert_ne.
Qed.

Lemma lookup_set_ne k v st k' :
  k ≠ k' → gauges (with_gauges (insert k v) st) !! k' = gauges st !! k'.
Proof. intros Hne. cbn. by rewrite lookup_insert_ne. Qed.

Ltac line_returns H :=
  erewrite bind_ret_eq
    by (first [apply float_line_return; reflexivity
              | apply int_line_return; exact H]);
  cbv beta.

Ltac line_raises H :=
  erewrite bind_raise_eq
    by (first [apply float_line_raise; reflexivity
              | apply int_line_raise; exact H]);
  cbn [fst snd].

Ltac lift_returns := erewrite bind_ret_eq by reflexivity; cbv beta.
Ltac lift_raises := erewrite bind_raise_eq by reflexivity; cbn [fst snd].

Ltac ratio_untouched :=
  rewrite ?lookup_labels_ne, ?lookup_set_ne by (intros [= ?]; discriminate);
  reflexivity.

Ltac in_table := unfold projection_table; rewrite !elem_of_cons; tauto.

(** [update_metrics] either returns, with every coercion done and the
    eight gauges stored, or raises the exception of a field of the table and
    leaves the ratio gauge alone. *)
Lemma update_metrics_cases server_label server_status verbose st :
  (∃ total cpu uptime req bytes busy idle fb fi,
      py_float (dict_get server_status "Total Accesses" (VInt 0)) = Return total
      ∧ py_float (dict_get server_status "CPULoad" (VInt 0)) = Return cpu
      ∧ py_float (dict_get server_status "Uptime" (VInt 0)) = Return uptime
      ∧ py_float (dict_get server_status "ReqPerSec" (VInt 0)) = Return req
      ∧ py_float (dict_get server_status "BytesPerSec" (VInt 0)) = Return bytes
      ∧ py_int (dict_get server_status "BusyWorkers" (VInt 0)) = Return busy
      ∧ py_int (dict_get server_status "IdleWorkers" (VInt 0)) = Return idle
      ∧ float_of_int busy = Return fb
      ∧ float_of_int idle = Return fi
      ∧ update_metrics server_label server_status verbose st
        = (projected server_label verbose total cpu uptime req bytes fb fi
             (if (0 <? idle)%Z then quotient busy idle else fb) st,
           Return tt))
  ∨ (∃ e key metric as_int,
        (key, metric, as_int) ∈ projection_table
        ∧ field_value server_status key as_int = Raise e
        ∧ (update_metrics server_label server_status verbose st).2 = Raise e
        ∧ gauges (update_metrics server_label server_status verbose st).1
            !! (apache_worker_ratio, server_label)
          = gauges st !! (apache_worker_ratio, server_label)).
Proof.
  unfold update_metrics.
  rewrite (bind_ret_eq _ _ _ _ _ (verbose_print_eq verbose server_label st)).
  set (st0 := mkState _ _ _).
  assert (gauges st0 = gauges st) as Hst0 by done.
  destruct (py_float (dict_get server_status "Total Accesses" (VInt 0)))
    as [e|total] eqn:H1.
  { right. exists e, "Total Accesses", apache_total_accesses, false.
    line_raises H1. split; [in_table|]. split; [exact H1|]. split; [done|].
    rewrite <- Hst0. ratio_untouched. }
  line_returns H1.
  destruct (py_float (dict_get server_status "CPULoad" (VInt 0)))
    as [e|cpu] eqn:H2.
  { right. exists e, "CPULoad", apache_cpu_load, false.
    line_raises H2. split; [in_table|]. split; [exact H2|]. split; [done|].
    rewrite <- Hst0. ratio_untouched. }
  line_returns H2.
  destruct (py_float (dict_get server_status "Uptime" (VInt 0)))
    as [e|uptime] eqn:H3.
  { right. exists e, "Uptime", apache_uptime, false.
    line_raises H3. split; [in_table|]. split; [exact H3|]. split; [done|].
    rewrite <- Hst0. ratio_untouched. }
  line_returns H3.
  destruct (py_float (dict_get server_status "ReqPerSec" (VInt 0)))
    as [e|req] eqn:H4.
  { right. exists e, "ReqPerSec", apache_req_per_sec, false.
    line_raises H4. split; [in_table|]. split; [exact H4|]. split; [done|].
    rewrite <- Hst0. ratio_untouched. }
  line_returns H4.
  destruct (py_float (dict_get server_status "BytesPerSec" (VInt 0)))
    as [e|bytes] eqn:H5.
  { right. exists e, "BytesPerSec", apache_bytes_per_sec, false.
    line_raises H5. split; [in_table|]. split; [exact H5|]. split; [done|].
    rewrite <- Hst0. ratio_untouched. }
  line_returns H5.
  destruct (py_int (dict_get server_status "BusyWorkers" (VInt 0)))
    as [e|busy] eqn:H6.
  { right. exists e, "BusyWorkers", apache_busy_workers, true.
    lift_raises. split; [in_table|].
    split; [unfold field_value; by rewrite H6|]. split; [done|].
    rewrite <- Hst0. ratio_untouched. }
  lift_returns.
  destruct (py_int (dict_get server_status "IdleWorkers" (VInt 0)))
    as [e|idle] eqn:H7.
  { right. exists e, "IdleWorkers", apache_idle_workers, true.
    lift_raises. split; [in_table|].
    split; [unfold field_value; by rewrite H7|]. split; [done|].
    rewrite <- Hst0. ratio_untouched. }
  lift_returns.
  destruct (float_of_int busy) as [e|fb] eqn:H8.
  { right. exists e, "BusyWorkers", apache_busy_workers, true.
    line_raises H8. split; [in_table|].
    split; [unfold field_value; by rewrite H6|]. split; [done|].
    rewrite <- Hst0. ratio_untouched. }
  line_returns H8.
  destruct (float_of_int idle) as [e|fi] eqn:H9.
  { right. exists e, "IdleWorkers", apache_idle_workers, true.
    line_raises H9. split; [in_table|].
    split; [unfold field_value; by rewrite H7|]. split; [done|].
    rewrite <- Hst0. ratio_untouched. }
  line_returns H9.
  left. exists total, cpu, uptime, req, bytes, busy, idle, fb, fi.
  repeat (split; [done|]).
  destruct (0 <? idle)%Z eqn:Hidle.
  - apply Z.ltb_lt in Hidle.
    erewrite bind_ret_eq; cycle 1.
    { erewrite bind_ret_eq;
        [reflexivity|unfold lift; by rewrite (int_truediv_quotient _ _ _ H8 Hidle)]. }
    cbv beta. by rewrite float_set_return.
  - lift_returns. by rewrite (int_line_return _ _ _ _ _ H8).
Qed.

Ltac table_cases H :=
  unfold projection_table in H; rewrite !elem_of_cons, elem_of_nil in H;
  destruct H as [H|[H|[H|[H|[H|[H|[H|[]]]]]]]]; injection H as -> -> ->.

Ltac gauge_stored :=
  unfold projected; cbn [gauges];
  rewrite ?lookup_insert_ne by (intros [= ?]; discriminate);
  apply lookup_insert_eq.

(** C2, as stated, fails: with a [CPULoad] that is not a number the
    projection raises; the gauge of that field keeps its former value instead
    of becoming 0, and the field after it is not projected. *)
Lemma non_numeric_field_stops_projection :
  field_value example_status "CPULoad" false = Raise (ValueError "abc")
  ∧ (update_metrics "web1" example_status false example_gauges).2
    = Raise (ValueError "abc")
  ∧ gauges example_gauges !! (apache_cpu_load, "web1") = Some (Finite false 7)
  ∧ gauges (update_metrics "web1" example_status false example_gauges).1
      !! (apache_cpu_load, "web1") = Some (Finite false 7)
  ∧ gauges (update_metrics "web1" example_status false example_gauges).1
      !! (apache_uptime, "web1") = None.
Proof. repeat split; vm_compute; reflexivity. Qed.

(** C2 (amended): an absent field is coerced from the default, which gives
    0 without an error.  When every field of the table is absent or holds a
    text that its coercion accepts, [update_metrics] returns and the gauge of
    every field holds the coerced value.  When some field holds a text that
    its coercion rejects, [update_metrics] raises: the statements behind the
    failing one are not executed, so the ratio gauge is left as it was. *)
Theorem update_metrics_defaults server_label server_status verbose st :
  (∀ key metric as_int,
      (key, metric, as_int) ∈ projection_table →
      server_status !! key = None →
      field_value server_status key as_int = Return float_zero)
  ∧ ((∀ key metric as_int,
         (key, metric, as_int) ∈ projection_table →
         ∃ v, field_value server_status key as_int = Return v) →
     (update_metrics server_label server_status verbose st).2 = Return tt
     ∧ ∀ key metric as_int v,
         (key, metric, as_int) ∈ projection_table →
         field_value server_status key as_int = Return v →
         gauges (update_metrics server_label server_status verbose st).1
           !! (metric, server_label) = Some v)
  ∧ (∀ key metric as_int e,
        (key, metric, as_int) ∈ projection_table →
        field_value server_status key as_int = Raise e →
        ∃ e',
          (update_metrics server_label server_status verbose st).2 = Raise e'
          ∧ gauges (update_metrics server_label server_status verbose st).1
              !! (apache_worker_ratio, server_label)
            = gauges st !! (apache_worker_ratio, server_label)).
Proof.
  split; [|split].
  - intros key metric as_int Hin Hnone.
    assert (dict_get server_status key (VInt 0) = VInt 0) as Hget
      by (unfold dict_get; by rewrite Hnone).
    unfold field_value. rewrite Hget. by destruct as_int.
  - intros Hall.
    destruct (update_metrics_cases server_label server_status verbose st)
      as [(total & cpu & uptime & req & bytes & busy & idle & fb & fi
           & H1 & H2 & H3 & H4 & H5 & H6 & H7 & H8 & H9 & ->)
         |(e & key & metric & as_int & Hin & He & _)].
    + split; [done|]. intros key metric as_int v Hin Hv. cbn [fst].
      unfold field_value, Return in *. table_cases Hin;
        rewrite ?H1, ?H2, ?H3, ?H4, ?H5, ?H6, ?H7 in Hv; cbv beta iota in Hv;
        rewrite ?H8, ?H9 in Hv; injection Hv as <-; gauge_stored.
    + destruct (Hall key metric as_int Hin) as [v Hv].
      unfold Return, Raise in *. congruence.
  - intros key metric as_int e Hin He.
    destruct (update_metrics_cases server_label server_status verbose st)
      as [(total & cpu & uptime & req & bytes & busy & idle & fb & fi
           & H1 & H2 & H3 & H4 & H5 & H6 & H7 & H8 & H9 & _)
         |(e' & _ & _ & _ & _ & _ & Hr & Hratio)].
    + unfold field_value, Return in *. table_cases Hin;
        rewrite ?H1, ?H2, ?H3, ?H4, ?H5, ?H6, ?H7 in He; cbv beta iota in He;
        rewrite ?H8, ?H9 in He; discriminate.
    + by exists e'.
Qed.

Lemma update_metrics_defaults_witness :
  (update_metrics "web1" (<["Uptime" := "42"]> ∅) false example_state).2
  = Return tt
  ∧ gauges (update_metrics "web1" (<["Uptime" := "42"]> ∅) false example_state).1
      !! (apache_total_accesses, "web1") = Some float_zero
  ∧ ∃ e', (update_metrics "web1" (<["Uptime" := "4 2"]> ∅) false example_state).2
          = Raise e'.
Proof.
  pose proof (update_metrics_defaults "web1" (<["Uptime" := "42"]> ∅) false
                example_state) as (Hdefault & Hreturn & _).
  assert (∀ key metric as_int,
             (key, metric, as_int) ∈ projection_table →
             ∃ v, field_value (<["Uptime" := "42"]> ∅) key as_int = Return v)
    as Hall.
  { intros key metric as_int Hin. table_cases Hin; eexists; vm_compute; reflexivity. }
  destruct (Hreturn Hall) as [Hr Hg]. split; [exact Hr|]. split.
  - apply (Hg "Total Accesses" apache_total_accesses false).
    + unfold projection_table. apply elem_of_cons. by left.
    + apply (Hdefault _ apache_total_accesses); [|reflexivity].
      unfold projection_table. apply elem_of_cons. by left.
  - destruct (proj2 (proj2 (update_metrics_defaults "web1" (<["Uptime" := "4 2"]> ∅)
                              false example_state))
                "Uptime" apache_uptime false (ValueError "4 2"))
      as (e' & He' & _).
    + unfold projection_table. do 2 (apply elem_of_cons; right).
      apply elem_of_cons. by left.
    + vm_compute. reflexivity.
    + by exists e'.
Defined.



End projection.

(** ** [ensure_auto_parameter] *)

Section auto_parameter.

Implicit Types (qs name : string).

Lemma append_cons c (s r : string) : String c s +:+ r = String c (s +:+ r).
Proof. reflexivity. Qed.

Lemma split_amp_cons c s :
  split "&" (String c s)
  = if Ascii.eqb "&" c then EmptyString :: split "&" s
    else push_char c (split "&" s).
Proof.
  unfold split. cbn [split_from starts_with]. rewrite andb_true_r.
  by destruct (Ascii.eqb "&" c).
Qed.

(** Appending a field to a query string appends it to the fields. *)
Lemma split_amp_append s r :
  split "&" (s +:+ "&" +:+ r) = split "&" s ++ split "&" r.
Proof.
  induction s as [|c s IH].
  - change ("" +:+ "&" +:+ r) with (String "&" r). by rewrite split_amp_cons.
  - rewrite append_cons, !split_amp_cons, IH.
    destruct (Ascii.eqb "&" c); [done|].
    pose proof (split_from_nonempty "&" 0 s) as Hne. fold (split "&" s) in Hne.
    by destruct (split "&" s).
Qed.

Lemma query_field_spec f nv :
  query_field f = Some nv → field_name f = nv.1 ∧ field_has_value f = true.
Proof.
  unfold query_field, field_name, field_has_value.
  destruct (nonempty f); [|done].
  destruct (cut "=" f) as [[n v]|]; [|done]. cbn.
  destruct (nonempty v); [|done]. by intros [= <-].
Qed.

Lemma query_field_valued f :
  field_has_value f = true → ∃ v, query_field f = Some (field_name f, v).
Proof.
  unfold query_field, field_name, field_has_value.
  destruct (cut "=" f) as [[n v]|] eqn:Hcut; [|done]. cbn. intros ->.
  assert (nonempty f = true) as ->; [|by eexists].
  destruct f; [done|reflexivity].
Qed.

Lemma parse_qsl_names qs name :
  name ∈ (parse_qsl qs).*1 ↔
  ∃ f, f ∈ query_fields qs ∧ field_name f = name ∧ field_has_value f = true.
Proof.
  unfold parse_qsl. fold (query_fields qs). split.
  - intros ([n v] & -> & Hin)%list_elem_of_fmap.
    apply list_elem_of_omap in Hin as (f & Hf & Hq).
    apply query_field_spec in Hq as [Hn Hv]. eauto.
  - intros (f & Hf & <- & Hv). destruct (query_field_valued f Hv) as [v Hq].
    apply list_elem_of_fmap. exists (field_name f, v). split; [done|].
    apply list_elem_of_omap. eauto.
Qed.

Lemma parse_qs_fold (l : list (string * string)) (m : gmap string (list string)) name :
  is_Some (foldl (fun parsed_result nv =>
                    match parsed_result !! nv.1 with
                    | Some values => <[nv.1 := values ++ [nv.2]]> parsed_result
                    | None => <[nv.1 := [nv.2]]> parsed_result
                    end) m l !! name)
  ↔ is_Some (m !! name) ∨ name ∈ l.*1.
Proof.
  revert m. induction l as [|[n v] l IH]; intros m.
  - cbn. rewrite elem_of_nil. tauto.
  - cbn [foldl]. rewrite IH, fmap_cons, elem_of_cons. cbn [fst snd].
    assert (is_Some (match m !! n with
                     | Some values => <[n := values ++ [v]]> m
                     | None => <[n := [v]]> m
                     end !! name)
            ↔ is_Some (m !! name) ∨ name = n) as ->; [|tauto].
    destruct (decide (name = n)) as [->|Hne].
    + destruct (m !! n); rewrite lookup_insert_eq; split; eauto.
    + destruct (m !! n); rewrite lookup_insert_ne by done; tauto.
Qed.

(** ['auto' in query_params] holds exactly for a field named [auto] with a
    non-empty value. *)
Lemma parse_qs_member qs name :
  is_Some (parse_qs qs !! name) ↔
  ∃ f, f ∈ query_fields qs ∧ field_name f = name ∧ field_has_value f = true.
Proof.
  unfold parse_qs. rewrite parse_qs_fold, lookup_empty, <- parse_qsl_names.
  split; [|by right]. intros [[? [=]]|?]; done.
Qed.

Lemma parse_qsl_append_auto qs :
  parse_qsl (if nonempty qs then qs +:+ "&auto" else "auto") = parse_qsl qs.
Proof.
  unfold parse_qsl. destruct qs as [|c qs]; [reflexivity|].
  cbn [nonempty String.eqb negb].
  change (String c qs +:+ "&auto") with (String c (qs +:+ "&" +:+ "auto")).
  assert (nonempty (String c (qs +:+ "&" +:+ "auto")) = true) as -> by done.
  rewrite <- append_cons, split_amp_append, omap_app.
  change (omap query_field (split "&" "auto")) with (@nil (string * string)).
  by rewrite app_nil_r.
Qed.

(** C6, as stated, fails: a parameter spelled [AUTO] is not recognised,
    and [auto] is appended to a URL that carries it. *)
Lemma auto_in_other_casing_is_appended :
  ensure_auto_parameter "http://web1/server-status?AUTO=1"
  = Return "http://web1/server-status?AUTO=1&auto"
  ∧ "http://web1/server-status?AUTO=1&auto" ≠ "http://web1/server-status?AUTO=1".
Proof. split; [vm_compute; reflexivity|discriminate]. Qed.

(** The parameter in its usual form, without a value, is not recognised
    either: [parse_qs] drops fields with a blank value. *)
Example bare_auto_is_appended :
  ensure_auto_parameter "http://web1/server-status?auto"
  = Return "http://web1/server-status?auto&auto".
Proof. vm_compute. reflexivity. Qed.

(** C6 (amended): for a URL that [urlparse] accepts, when some field of the
    query is named exactly [auto] and carries a non-empty value, the URL is
    returned unchanged; when no field of the query is named exactly [auto],
    the result is the URL put together again from its parsed scheme, netloc,
    path, params and fragment, with the query followed by [&auto], or with
    [auto] as the whole query when there was none, and the parameters read
    from the new query are those read from the old one. *)
Theorem ensure_auto_parameter_spec url parsed_url :
  urlparse url = Return parsed_url →
  ((∃ f, f ∈ query_fields (query parsed_url)
         ∧ field_name f = "auto" ∧ field_has_value f = true) →
   ensure_auto_parameter url = Return url)
  ∧ ((∀ f, f ∈ query_fields (query parsed_url) → field_name f ≠ "auto") →
     let new_query :=
       if nonempty (query parsed_url) then query parsed_url +:+ "&auto"
       else "auto" in
     ensure_auto_parameter url
     = Return (urlunparse (mkParse (scheme parsed_url) (netloc parsed_url)
                             (path parsed_url) (params parsed_url) new_query
                             (fragment parsed_url)))
     ∧ parse_qsl new_query = parse_qsl (query parsed_url)).
Proof.
  intros Hparse. unfold ensure_auto_parameter. rewrite Hparse.
  unfold Return. split.
  - intros Hauto. apply parse_qs_member in Hauto as [values Hvalues].
    by rewrite Hvalues.
  - intros Hnone. cbn zeta. split; [|apply parse_qsl_append_auto].
    destruct (parse_qs (query parsed_url) !! "auto") as [values|] eqn:Hq; [|done].
    assert (is_Some (parse_qs (query parsed_url) !! "auto")) as Hsome by eauto.
    apply parse_qs_member in Hsome as (f & Hf & Hname & _).
    by destruct (Hnone f Hf).
Qed.

Lemma ensure_auto_parameter_spec_witness :
  ensure_auto_parameter "http://web1/server-status?refresh=5&auto=1"
  = Return "http://web1/server-status?refresh=5&auto=1"
  ∧ ensure_auto_parameter "http://web1/server-status?refresh=5"
    = Return "http://web1/server-status?refresh=5&auto".
Proof.
  split.
  - refine (proj1 (ensure_auto_parameter_spec
                     "http://web1/server-status?refresh=5&auto=1"
                     (mkParse "http" "web1" "/server-status" "" "refresh=5&auto=1" "")
                     _) _).
    + vm_compute. reflexivity.
    + exists "auto=1". split; [|split; vm_compute; reflexivity].
      apply elem_of_cons. right. apply elem_of_cons. by left.
  - refine (proj1 (proj2 (ensure_auto_parameter_spec
                     "http://web1/server-status?refresh=5"
                     (mkParse "http" "web1" "/server-status" "" "refresh=5" "")
                     _) _)).
    + vm_compute. reflexivity.
    + intros f Hf. apply elem_of_cons in Hf as [->|Hf]; [by vm_compute|].
      by apply elem_of_nil in Hf.
Defined.

End auto_parameter.

(** ** Proxies *)

Section proxies.

(** The request carries the HTTP proxy, whatever the scheme of the URL and
    whatever the HTTPS proxy. *)
Lemma open_request_proxy url http_proxy https_proxy st :
  (open_request url http_proxy https_proxy st).2
  = Return (mkRequest url http_proxy).
Proof.
  unfold open_request. destruct http_proxy as [hp|], https_proxy as [hsp|]; cbn.
  - by rewrite lookup_insert_ne, lookup_insert_eq.
  - by rewrite lookup_insert_eq.
  - by rewrite lookup_insert_ne by done.
  - done.
Qed.

(** Each task gets the proxies of its own section, and the global ones for
    those its section does not set. *)
Lemma make_tasks_proxies config ghp ghsp ts t :
  make_tasks config ghp ghsp = Return ts → t ∈ ts →
  ∃ options,
    (task_label t, options) ∈ config
    ∧ task_http_proxy t = section_get options "http_proxy" ghp
    ∧ task_https_proxy t = section_get options "https_proxy" ghsp.
Proof.
  revert ts. induction config as [|[server_label options] config IH];
    intros ts Hts Ht.
  - injection Hts as <-. by apply elem_of_nil in Ht.
  - cbn [make_tasks] in Hts.
    destruct (String.eqb server_label "config").
    { destruct (IH ts Hts Ht) as (o & Ho & Hp). exists o. split; [by right|done]. }
    destruct (options !! "url") as [u|]; [|done].
    destruct (ensure_auto_parameter u) as [e|url]; [done|].
    destruct (make_tasks config ghp ghsp) as [e|ts']; [done|].
    injection Hts as <-. apply elem_of_cons in Ht as [->|Ht].
    + exists options. split; [by left|done].
    + destruct (IH ts' eq_refl Ht) as (o & Ho & Hp). exists o.
      split; [by right|done].
Qed.

(** C8 fails on the code for a target with an [https] URL: the request of
    [web2], whose section sets an HTTPS proxy and no HTTP proxy, goes out
    without a proxy; the HTTPS proxy only reaches [os.environ]. *)
Theorem https_proxy_not_applied :
  make_tasks example_config None None = Return example_tasks
  ∧ mkTask "web2" "https://web2/server-status?auto" None
           (Some "http://proxy:3128") ∈ example_tasks
  ∧ (open_request "https://web2/server-status?auto" None
                  (Some "http://proxy:3128") example_state).2
    = Return (mkRequest "https://web2/server-status?auto" None)
  ∧ environ (open_request "https://web2/server-status?auto" None
                          (Some "http://proxy:3128") example_state).1
      !! "https_proxy" = Some "http://proxy:3128".
Proof.
  split; [by vm_compute|]. split.
  - apply elem_of_cons. right. apply elem_of_cons. by left.
  - split; [apply open_request_proxy|by vm_compute].
Qed.

End proxies.

(** * Further properties of the code *)

(** ** The loop over the sections *)

Section sections_loop.

Implicit Types (config : list (string * gmap string string)).




End sections_loop.

(** ** More on the status parser *)

Section parser_more.

Implicit Types (m : gmap string string) (es : list (string * string)).

Lemma split_single_cons c a s :
  split (String c EmptyString) (String a s)
  = if Ascii.eqb c a then EmptyString :: split (String c EmptyString) s
    else push_char a (split (String c EmptyString) s).
Proof.
  unfold split. cbn [split_from starts_with]. rewrite andb_true_r.
  by destruct (Ascii.eqb c a).
Qed.

Lemma split_single_append c s r :
  split (String c EmptyString) (s +:+ String c EmptyString +:+ r)
  = split (String c EmptyString) s ++ split (String c EmptyString) r.
Proof.
  induction s as [|a s IH].
  - change ("" +:+ String c "" +:+ r) with (String c r).
    by rewrite split_single_cons, Ascii.eqb_refl.
  - rewrite append_cons, !split_single_cons, IH.
    destruct (Ascii.eqb c a); [done|].
    pose proof (split_from_nonempty (String c "") 0 s) as Hne.
    fold (split (String c "") s) in Hne.
    by destruct (split (String c "") s).
Qed.

Lemma foldl_put_union es m : foldl put m es = foldl put ∅ es ∪ m.
Proof.
  induction es as [|[k v] es IH] using rev_ind.
  - cbn. by rewrite (left_id_L ∅ (∪)).
  - rewrite !foldl_snoc, IH. unfold put. cbn. by rewrite insert_union_l.
Qed.

(** X2: parsing two pages joined by a line break gives the entries of the
    second page, and those of the first for the keys that the second lacks. *)
Theorem parse_status_append a b :
  parse_status (a +:+ newline +:+ b) = parse_status b ∪ parse_status a.
Proof.
  unfold parse_status, newline. rewrite split_single_append, foldl_app.
  rewrite !foldl_parse_item. apply foldl_put_union.
Qed.

Lemma foldl_put_is_Some es m k : k ∈ es.*1 → is_Some (foldl put m es !! k).
Proof.
  induction es as [|[k' v'] es IH] using rev_ind.
  - intros Hk. by apply elem_of_nil in Hk.
  - rewrite fmap_app, elem_of_app, foldl_snoc. unfold put. cbn.
    rewrite list_elem_of_singleton. intros [Hk| ->].
    + rewrite lookup_insert. case_decide; [by eexists|by apply IH].
    + rewrite lookup_insert_eq. by eexists.
Qed.

(** X3: the keys of the mapping are exactly the trimmed keys of the lines
    with one separator, and every value is the trimmed value of such a line;
    a page without such a line gives the empty mapping. *)
Theorem parse_status_keys data :
  (∀ k, is_Some (parse_status data !! k) ↔ k ∈ key_of <$> kept_lines data)
  ∧ (∀ k v, parse_status data !! k = Some v →
            ∃ item, item ∈ kept_lines data
                    ∧ key_of item = k ∧ value_of item = v)
  ∧ (kept_lines data = [] → parse_status data = ∅).
Proof.
  rewrite parse_status_entries, kept_entries_lines.
  assert (∀ k v, foldl put ∅
                   ((λ item, (key_of item, value_of item)) <$> kept_lines data)
                 !! k = Some v →
                 ∃ item, item ∈ kept_lines data
                         ∧ key_of item = k ∧ value_of item = v) as Hinv.
  { intros k v Hk. apply foldl_put_lookup_inv in Hk as [Hk|Hk].
    - by rewrite lookup_empty in Hk.
    - apply list_elem_of_fmap in Hk as (item & [= -> ->] & Hin). eauto. }
  split; [|split].
  - intros k. split.
    + intros [v Hk]. destruct (Hinv k v Hk) as (item & Hin & <- & _).
      by apply list_elem_of_fmap_2.
    + intros Hk. apply foldl_put_is_Some. by rewrite <- list_fmap_compose.
  - exact Hinv.
  - by intros ->.
Qed.

Lemma parse_status_no_kept_line data :
  kept_lines data = [] → parse_status data = ∅.
Proof. rewrite parse_status_entries, kept_entries_lines. by intros ->. Qed.

Lemma append_single (c : ascii) : EmptyString +:+ String c EmptyString = String c EmptyString.
Proof. reflexivity. Qed.

Lemma starts_with_snoc s c :
  c ≠ " "%char →
  starts_with colon_space (s +:+ String c EmptyString) = starts_with colon_space s.
Proof.
  intros Hc. assert (Ascii.eqb " " c = false) as Hb.
  { apply not_true_is_false. intros H%Ascii.eqb_eq. by apply Hc. }
  unfold colon_space. destruct s as [|a [|b r]].
  - rewrite append_single. cbn [starts_with]. by rewrite andb_false_r.
  - rewrite append_cons, append_single. cbn [starts_with]. rewrite Hb. reflexivity.
  - rewrite !append_cons. reflexivity.
Qed.

Lemma occurrences_snoc s c :
  c ≠ " "%char →
  occurrences colon_space (s +:+ String c EmptyString) = occurrences colon_space s.
Proof.
  intros Hc. induction s as [|a s IH].
  - rewrite append_single. cbn [occurrences].
    rewrite <- (append_single c), starts_with_snoc by done. reflexivity.
  - rewrite append_cons. cbn [occurrences]. rewrite IH.
    by rewrite <- append_cons, starts_with_snoc.
Qed.

Lemma before_snoc s c :
  c ≠ " "%char → 1 ≤ occurrences colon_space s →
  before colon_space (s +:+ String c EmptyString) = before colon_space s.
Proof.
  intros Hc. induction s as [|a s IH]; cbn [occurrences]; [lia|].
  intros Hocc. rewrite append_cons. cbn [before].
  rewrite <- append_cons, starts_with_snoc by done.
  destruct (starts_with colon_space (String a s)); [done|].
  rewrite IH; [done|lia].
Qed.

Lemma after_snoc s c :
  c ≠ " "%char → 1 ≤ occurrences colon_space s →
  after colon_space (s +:+ String c EmptyString)
  = after colon_space s +:+ String c EmptyString.
Proof.
  intros Hc. induction s as [|a s IH]; cbn [occurrences]; [lia|].
  intros Hocc. rewrite append_cons. cbn [after].
  rewrite <- append_cons, starts_with_snoc by done.
  destruct (starts_with colon_space (String a s)) eqn:Hp.
  - apply prefix_colon_space in Hp as [r [= -> ->]]. reflexivity.
  - rewrite IH; [done|lia].
Qed.

Lemma lstrip_snoc x c :
  is_space c = true →
  lstrip (x +:+ String c EmptyString)
  = match lstrip x with
    | EmptyString => EmptyString
    | y => y +:+ String c EmptyString
    end.
Proof.
  intros Hc. induction x as [|a x IH].
  - rewrite append_single. cbn [lstrip]. by rewrite Hc.
  - rewrite append_cons. cbn [lstrip]. by destruct (is_space a).
Qed.

Lemma rstrip_snoc y c :
  is_space c = true → rstrip (y +:+ String c EmptyString) = rstrip y.
Proof.
  intros Hc. induction y as [|a y IH].
  - rewrite append_single. cbn [rstrip]. by rewrite Hc.
  - rewrite append_cons. cbn [rstrip]. by rewrite IH.
Qed.

Lemma strip_snoc x c :
  is_space c = true → strip (x +:+ String c EmptyString) = strip x.
Proof.
  intros Hc. unfold strip. rewrite lstrip_snoc by done.
  destruct (lstrip x) as [|a y]; [done|]. by rewrite rstrip_snoc.
Qed.

(** X4: a white-space character other than the blank at the end of a line,
    such as the carriage return of a CRLF line ending, does not change what
    the line contributes. *)
Theorem parse_item_trailing_space m item c :
  is_space c = true → c ≠ " "%char →
  parse_item m (item +:+ String c EmptyString) = parse_item m item.
Proof.
  intros Hspace Hc. rewrite !parse_item_entry, !entry_of_spec.
  unfold one_separator, key_of, value_of. rewrite occurrences_snoc by done.
  destruct (Nat.eqb_spec (occurrences colon_space item) 1) as [Hocc|]; [|done].
  rewrite before_snoc, after_snoc, strip_snoc by (done || lia). done.
Qed.

Lemma parse_item_trailing_space_witness :
  parse_item ∅ ("Uptime: 42" +:+ String "013" EmptyString)
  = parse_item ∅ "Uptime: 42".
Proof.
  apply parse_item_trailing_space; [reflexivity|discriminate].
Defined.

End parser_more.

(** ** More on [update_metrics] *)

Section projection_more.

Implicit Types (st : state) (metric server_label : string)
  (server_status : gmap string string).

Lemma step_at_keeps k x ops :
  is_Some x → is_Some (foldl (step_at k) x ops).
Proof.
  intros Hx. destruct (step_at_shape k ops) as [H|[H|[v H]]]; rewrite H; eauto.
Qed.

Lemma update_metrics_quiet server_label server_status :
  confined server_label (fun _ => False)
           (update_metrics server_label server_status false).
Proof.
  unfold update_metrics. apply confined_bind; [apply confined_ret|intros _].
  repeat first
    [ apply confined_bind_labels; [apply metric_names_elem; tauto|]
    | apply confined_gauge_set; apply metric_names_elem; tauto
    | apply confined_bind_lift; intros ? _
    | apply confined_ret
    | apply confined_bind; [|intros ?]
    | match goal with |- confined _ _ (if ?b then _ else _) => destruct b end ].
Qed.

Lemma update_metrics_verbose server_label server_status st :
  update_metrics server_label server_status true st
  = update_metrics server_label server_status false
      (mkState (gauges st) (environ st) (stdout st ++ [Updating server_label])).
Proof. reflexivity. Qed.

Lemma update_metrics_traced server_label server_status (verbose : bool) :
  ∃ ops r,
    Forall (fun o => (op_child o).2 = server_label
                     ∧ (op_child o).1 ∈ metric_names) ops
    ∧ ∀ st, update_metrics server_label server_status verbose st
            = (mkState (foldl apply_op (gauges st) ops) (environ st)
                 (stdout st ++ (if verbose then [Updating server_label] else [])),
               r).
Proof.
  destruct (update_metrics_quiet server_label server_status)
    as (ops & out & r & Hm & Hops & Hout).
  assert (out = []) as -> by (destruct out as [|l out]; [done|by inversion Hout]).
  exists ops, r. split; [done|]. intros st. destruct verbose.
  - rewrite update_metrics_verbose, Hm. cbn. by rewrite app_nil_r.
  - by rewrite Hm.
Qed.

(** X5: whether it returns or raises, [update_metrics] leaves the
    environment alone, prints its one line exactly when [verbose] is set,
    leaves alone every gauge child of another label and of another metric
    than its eight, removes no child, and ends in a way that does not depend
    on the state. *)
Theorem update_metrics_footprint server_label server_status (verbose : bool) st :
  environ (update_metrics server_label server_status verbose st).1 = environ st
  ∧ stdout (update_metrics server_label server_status verbose st).1
    = stdout st ++ (if verbose then [Updating server_label] else [])
  ∧ (∀ metric hostname,
        hostname ≠ server_label ∨ metric ∉ metric_names →
        gauges (update_metrics server_label server_status verbose st).1
          !! (metric, hostname) = gauges st !! (metric, hostname))
  ∧ (∀ k, is_Some (gauges st !! k) →
          is_Some (gauges (update_metrics server_label server_status verbose st).1
                     !! k))
  ∧ (∀ st', (update_metrics server_label server_status verbose st').2
            = (update_metrics server_label server_status verbose st).2).
Proof.
  destruct (update_metrics_traced server_label server_status verbose)
    as (ops & r & Hops & Hm).
  rewrite Hm. cbn [fst snd gauges environ stdout].
  split; [done|]. split; [done|]. split; [|split].
  - intros metric hostname Hother. rewrite lookup_apply_ops.
    apply step_at_elsewhere. eapply Forall_impl; [exact Hops|].
    intros o [Hlabel Hmetric] Heq. rewrite Heq in Hlabel, Hmetric. cbn in *.
    destruct Hother; done.
  - intros k Hk. rewrite lookup_apply_ops. by apply step_at_keeps.
  - intros st'. by rewrite Hm.
Qed.

(** X6: when the text of [Total Accesses] is refused, [update_metrics]
    raises that exception at its first gauge: the child of
    [apache_total_accesses] for the label then exists, with the value it had
    or with 0 when it is new, and no other child is created or changed. *)
Theorem update_metrics_first_field_refused server_label server_status
    (verbose : bool) st e :
  py_float (dict_get server_status "Total Accesses" (VInt 0)) = Raise e →
  (update_metrics server_label server_status verbose st).2 = Raise e
  ∧ gauges (update_metrics server_label server_status verbose st).1
      !! (apache_total_accesses, server_label)
    = Some (default float_zero (gauges st !! (apache_total_accesses, server_label)))
  ∧ ∀ k, k ≠ (apache_total_accesses, server_label) →
         gauges (update_metrics server_label server_status verbose st).1 !! k
         = gauges st !! k.
Proof.
  intros He. unfold update_metrics.
  rewrite (bind_ret_eq _ _ _ _ _ (verbose_print_eq verbose server_label st)).
  erewrite bind_raise_eq by (apply float_line_raise; exact He).
  cbn [fst snd]. split; [done|]. unfold labels. cbn [fst gauges].
  destruct (gauges st !! (apache_total_accesses, server_label)) as [v|] eqn:Hv.
  - cbn. split; [done|]. done.
  - cbn. rewrite lookup_insert_eq. split; [done|].
    intros k Hk. by rewrite lookup_insert_ne.
Qed.

Lemma update_metrics_first_field_refused_witness :
  (update_metrics "web1" (<["Total Accesses" := "n/a"]> ∅) false empty_state).2
  = Raise (ValueError "n/a")
  ∧ gauges (update_metrics "web1" (<["Total Accesses" := "n/a"]> ∅) false
              empty_state).1 !! (apache_total_accesses, "web1")
    = Some float_zero.
Proof.
  destruct (update_metrics_first_field_refused "web1"
              (<["Total Accesses" := "n/a"]> ∅) false empty_state
              (ValueError "n/a")) as (Hr & Hg & _).
  - vm_compute. reflexivity.
  - split; [exact Hr|exact Hg].
Defined.

Ltac table_entry H :=
  unfold projection_table in H; rewrite !elem_of_cons, elem_of_nil in H;
  destruct H as [H|[H|[H|[H|[H|[H|[H|[]]]]]]]]; injection H as -> -> ->.

Ltac stored :=
  unfold projected; cbn [gauges fst];
  rewrite ?lookup_insert_ne by (intros [= ?]; discriminate);
  apply lookup_insert_eq.

Lemma field_value_absent server_status key as_int :
  server_status !! key = None →
  field_value server_status key as_int = Return float_zero.
Proof.
  intros Hnone. unfold field_value, dict_get. rewrite Hnone. by destruct as_int.
Qed.

(** X7: a page without any line that holds exactly one separator, such as
    an HTML page, is no error: [update_metrics] returns on its mapping and
    sets every one of the eight gauges of the label to 0. *)
Theorem page_without_entries_zeroes_gauges data server_label (verbose : bool) st :
  kept_lines data = [] →
  (update_metrics server_label (parse_status data) verbose st).2 = Return tt
  ∧ ∀ metric, metric ∈ metric_names →
      gauges (update_metrics server_label (parse_status data) verbose st).1
        !! (metric, server_label) = Some float_zero.
Proof.
  intros Hnone. rewrite (parse_status_no_kept_line data Hnone).
  destruct (update_metrics_cases server_label ∅ verbose st)
    as [(total & cpu & uptime & req & bytes & busy & idle & fb & fi
         & H1 & H2 & H3 & H4 & H5 & H6 & H7 & H8 & H9 & ->)
       |(e & key & metric & as_int & Hin & He & _)].
  - unfold dict_get in *. rewrite lookup_empty in *.
    injection H1 as <-. injection H2 as <-. injection H3 as <-.
    injection H4 as <-. injection H5 as <-. injection H6 as <-.
    injection H7 as <-. injection H8 as <-. injection H9 as <-.
    split; [done|]. intros metric Hmetric.
    apply metric_names_elem in Hmetric.
    destruct Hmetric as [->|[->|[->|[->|[->|[->|[->| ->]]]]]]]; stored.
  - rewrite field_value_absent in He by apply lookup_empty. discriminate.
Qed.

Lemma page_without_entries_zeroes_gauges_witness :
  gauges (update_metrics "web1"
            (parse_status "<html><title>Apache Status</title></html>")
            false example_state).1 !! (apache_total_accesses, "web1")
  = Some float_zero.
Proof.
  refine (proj2 (page_without_entries_zeroes_gauges
                   "<html><title>Apache Status</title></html>" "web1" false
                   example_state _) apache_total_accesses _).
  - vm_compute. reflexivity.
  - unfold metric_names. apply elem_of_cons. by left.
Defined.

(** X8: when the fields of the table are coerced without error, the ratio
    gauge has the sign of the gauge of busy workers and a magnitude that
    does not exceed the magnitude of that gauge; for an idle count of 0 or
    below, a negative one too, the two gauges hold the same value.  Both
    sides are the floats that the gauges hold, not the exact counts: the
    rounding to binary64, which is not represented here, is monotone and
    keeps the comparison. *)
Theorem worker_ratio_bounds server_label server_status (verbose : bool) st
    busy idle :
  (∀ key metric as_int,
      (key, metric, as_int) ∈ projection_table →
      ∃ v, field_value server_status key as_int = Return v) →
  py_int (dict_get server_status "BusyWorkers" (VInt 0)) = Return busy →
  py_int (dict_get server_status "IdleWorkers" (VInt 0)) = Return idle →
  ∃ q b,
    gauges (update_metrics server_label server_status verbose st).1
      !! (apache_worker_ratio, server_label) = Some (Finite (busy <? 0)%Z q)
    ∧ gauges (update_metrics server_label server_status verbose st).1
        !! (apache_busy_workers, server_label) = Some (Finite (busy <? 0)%Z b)
    ∧ (0 <= q)%Q ∧ (q <= b)%Q
    ∧ ((idle <= 0)%Z → q = b).
Proof.
  intros Hall Hbusy Hidle.
  destruct (update_metrics_cases server_label server_status verbose st)
    as [(total & cpu & uptime & req & bytes & busy' & idle' & fb & fi
         & H1 & H2 & H3 & H4 & H5 & H6 & H7 & H8 & H9 & ->)
       |(e & key & metric & as_int & Hin & He & _)].
  - rewrite Hbusy in H6. injection H6 as <-.
    rewrite Hidle in H7. injection H7 as <-.
    assert (fb = Finite (busy <? 0)%Z (Z.abs busy # 1)) as ->.
    { unfold float_of_int in H8.
      destruct (float_overflow <=? Z.abs busy)%Z; [done|]. by injection H8. }
    destruct (0 <? idle)%Z eqn:Hpos.
    + apply Z.ltb_lt in Hpos.
      exists (Qred (Z.abs busy # Z.to_pos idle)), (Z.abs busy # 1).
      split; [stored|]. split; [stored|]. split; [|split; [|lia]].
      * rewrite Qred_correct. unfold Qle. cbn. lia.
      * rewrite Qred_correct. unfold Qle. cbn. rewrite Z2Pos.id by done. nia.
    + apply Z.ltb_ge in Hpos. exists (Z.abs busy # 1), (Z.abs busy # 1).
      split; [stored|]. split; [stored|]. unfold Qle. cbn. repeat split; lia.
  - destruct (Hall key metric as_int Hin) as [v Hv].
    unfold Return, Raise in *. congruence.
Qed.

Lemma worker_ratio_bounds_witness :
  ∃ q b,
    gauges (update_metrics "web1"
              (<["IdleWorkers" := "-2"]> (<["BusyWorkers" := "5"]> ∅))
              false example_state).1 !! (apache_worker_ratio, "web1")
    = Some (Finite false q)
    ∧ gauges (update_metrics "web1"
                (<["IdleWorkers" := "-2"]> (<["BusyWorkers" := "5"]> ∅))
                false example_state).1 !! (apache_busy_workers, "web1")
      = Some (Finite false b)
    ∧ q = b.
Proof.
  destruct (worker_ratio_bounds "web1"
              (<["IdleWorkers" := "-2"]> (<["BusyWorkers" := "5"]> ∅))
              false example_state 5 (-2)) as (q & b & Hq & Hb & _ & _ & Hidle).
  - intros key metric as_int Hin.
    table_entry Hin; eexists; vm_compute; reflexivity.
  - vm_compute. reflexivity.
  - vm_compute. reflexivity.
  - exists q, b. split; [exact Hq|]. split; [exact Hb|]. apply Hidle. lia.
Defined.

End projection_more.

(** ** Proxies and the environment *)

Section proxies_more.

Implicit Types (config : list (string * gmap string string))
  (t : task) (st : state).

Lemma task_start_environ t st :
  environ (task_start t st) !! "http_proxy"
  = last_given [task_http_proxy t] (environ st !! "http_proxy")
  ∧ environ (task_start t st) !! "https_proxy"
    = last_given [task_https_proxy t] (environ st !! "https_proxy")
  ∧ ∀ key, key ≠ "http_proxy" → key ≠ "https_proxy" →
           environ (task_start t st) !! key = environ st !! key.
Proof.
  unfold task_start, open_request, last_given.
  destruct (task_http_proxy t) as [hp|], (task_https_proxy t) as [hsp|];
    cbn [fst environ with_environ foldl].
  - rewrite lookup_insert_ne, !lookup_insert_eq by done.
    split; [done|]. split; [done|]. intros key H1 H2.
    by rewrite !lookup_insert_ne by congruence.
  - rewrite lookup_insert_eq, lookup_insert_ne by done.
    split; [done|]. split; [done|].
    intros key H1 H2. by rewrite lookup_insert_ne by congruence.
  - rewrite lookup_insert_eq, lookup_insert_ne by done.
    split; [done|]. split; [done|]. intros key H1 H2.
    by rewrite lookup_insert_ne by congruence.
  - done.
Qed.

Lemma foldl_finish_environ net verbose ts st :
  environ (foldl (fun st t => task_finish net verbose t st) st ts) = environ st.
Proof.
  revert st. induction ts as [|t ts IH]; intros st; [done|].
  cbn [foldl]. by rewrite IH, task_finish_environ.
Qed.

Lemma foldl_start_environ ts st :
  environ (foldl (fun st t => task_start t st) st ts) !! "http_proxy"
  = last_given (task_http_proxy <$> ts) (environ st !! "http_proxy")
  ∧ environ (foldl (fun st t => task_start t st) st ts) !! "https_proxy"
    = last_given (task_https_proxy <$> ts) (environ st !! "https_proxy")
  ∧ ∀ key, key ≠ "http_proxy" → key ≠ "https_proxy" →
           environ (foldl (fun st t => task_start t st) st ts) !! key
           = environ st !! key.
Proof.
  revert st. induction ts as [|t ts IH]; intros st; [done|].
  cbn [foldl]. rewrite !fmap_cons.
  destruct (IH (task_start t st)) as (H1 & H2 & H3).
  destruct (task_start_environ t st) as (E1 & E2 & E3).
  rewrite H1, H2, E1, E2. split; [done|]. split; [done|].
  intros key Hk1 Hk2. by rewrite H3, E3.
Qed.

(** X9: after a cycle the two proxy variables of [os.environ] hold the
    proxy of the last task, in the order of the sections, that has one, or
    what they held before when no task has one; no other variable changes,
    and the order in which the responses arrive plays no part. *)
Theorem environ_after_gather net verbose tasks finished st :
  environ (gather net verbose tasks finished st) !! "http_proxy"
  = last_given (task_http_proxy <$> tasks) (environ st !! "http_proxy")
  ∧ environ (gather net verbose tasks finished st) !! "https_proxy"
    = last_given (task_https_proxy <$> tasks) (environ st !! "https_proxy")
  ∧ ∀ key, key ≠ "http_proxy" → key ≠ "https_proxy" →
           environ (gather net verbose tasks finished st) !! key
           = environ st !! key.
Proof.
  unfold gather. rewrite foldl_finish_environ. apply foldl_start_environ.
Qed.

Lemma make_tasks_sections config ghp ghsp ts t :
  make_tasks config ghp ghsp = Return ts → t ∈ ts →
  ∃ options u,
    (task_label t, options) ∈ config
    ∧ options !! "url" = Some u
    ∧ ensure_auto_parameter u = Return (task_url t)
    ∧ task_http_proxy t = section_get options "http_proxy" ghp
    ∧ task_https_proxy t = section_get options "https_proxy" ghsp.
Proof.
  revert ts. induction config as [|[server_label options] config IH];
    intros ts Hts Ht.
  - injection Hts as <-. by apply elem_of_nil in Ht.
  - cbn [make_tasks] in Hts.
    destruct (String.eqb server_label "config").
    { destruct (IH ts Hts Ht) as (o & u & Ho & Hp). exists o, u.
      split; [by right|done]. }
    destruct (options !! "url") as [u|] eqn:Hu; [|done].
    destruct (ensure_auto_parameter u) as [e|url] eqn:Hurl; [done|].
    destruct (make_tasks config ghp ghsp) as [e|ts']; [done|].
    injection Hts as <-. apply elem_of_cons in Ht as [->|Ht].
    + exists options, u. split; [by left|done].
    + destruct (IH ts' eq_refl Ht) as (o & u' & Ho & Hp). exists o, u'.
      split; [by right|done].
Qed.

Lemma global_proxy_not_None_text config key v :
  global_proxy config key = Return (Some v) → v ≠ "None".
Proof.
  unfold global_proxy.
  destruct (list_find _ config) as [[i [l options]]|]; [|done].
  destruct (options !! key) as [w|]; [|done].
  destruct (String.eqb_spec w "None") as [->|Hne]; [done|].
  by intros [= ->].
Qed.

(** X10: [main] reads the text [None] of a global proxy option as no proxy,
    but the loop of [collect_metrics] does not: a task carries the text
    [None] as its proxy exactly when its own section says so. *)
Theorem none_text_only_from_section config key ghp ghsp ts t :
  global_proxy config key = Return ghp →
  make_tasks config ghp ghsp = Return ts → t ∈ ts →
  (task_http_proxy t = Some "None" ↔
   ∃ options, (task_label t, options) ∈ config
              ∧ task_http_proxy t = section_get options "http_proxy" ghp
              ∧ options !! "http_proxy" = Some "None").
Proof.
  intros Hglobal Hts Ht.
  destruct (make_tasks_sections _ _ _ _ _ Hts Ht)
    as (options & u & Hin & _ & _ & Hhp & _).
  split.
  - intros Hnone. exists options. split; [done|]. split; [done|].
    rewrite Hhp in Hnone. unfold section_get in Hnone.
    destruct (options !! "http_proxy") as [v|]; [done|].
    subst ghp. by apply global_proxy_not_None_text in Hglobal.
  - intros (o & _ & Heq & Ho). rewrite Heq. unfold section_get. by rewrite Ho.
Qed.

Lemma none_text_only_from_section_witness :
  task_http_proxy (mkTask "web1" "http://web1/server-status?auto" (Some "None") None)
  = Some "None"
  ↔ ∃ options,
      ("web1", options)
        ∈ [("config", <["http_proxy" := "None"]> ∅);
           ("web1", <["http_proxy" := "None"]>
                      (<["url" := "http://web1/server-status"]> ∅))]
      ∧ Some "None" = section_get options "http_proxy" None
      ∧ options !! "http_proxy" = Some "None".
Proof.
  refine (none_text_only_from_section
            [("config", <["http_proxy" := "None"]> ∅);
             ("web1", <["http_proxy" := "None"]>
                        (<["url" := "http://web1/server-status"]> ∅))]
            "http_proxy" None None
            [mkTask "web1" "http://web1/server-status?auto" (Some "None") None]
            (mkTask "web1" "http://web1/server-status?auto" (Some "None") None)
            _ _ _).
  - vm_compute. reflexivity.
  - vm_compute. reflexivity.
  - apply list_elem_of_here.
Defined.

Lemma section_unique config server_label (o1 o2 : gmap string string) :
  NoDup config.*1 →
  (server_label, o1) ∈ config → (server_label, o2) ∈ config → o1 = o2.
Proof.
  induction config as [|[l o] config IH]; intros Hnd H1 H2.
  - by apply elem_of_nil in H1.
  - rewrite fmap_cons in Hnd. apply NoDup_cons in Hnd as [Hl Hnd].
    assert (∀ o', (l, o') ∈ config → False) as Hfresh.
    { intros o' Hin. apply Hl. apply list_elem_of_fmap. by exists (l, o'). }
    apply elem_of_cons in H1 as [[= -> ->]|H1];
      apply elem_of_cons in H2 as [[= ->]|H2].
    + done.
    + by destruct (Hfresh o2).
    + subst. by destruct (Hfresh o1).
    + by apply IH.
Qed.

(** X11: with distinct section names, the task of a target is built from
    the options of the section that carries its label and from nothing
    else: its URL is what [ensure_auto_parameter] makes of the [url] of that
    section, and each of its two proxies is the one the section sets, or
    the global one when the section sets none. *)
Theorem task_built_from_own_section config ghp ghsp ts t options :
  NoDup config.*1 →
  make_tasks config ghp ghsp = Return ts → t ∈ ts →
  (task_label t, options) ∈ config →
  (∃ u, options !! "url" = Some u
        ∧ ensure_auto_parameter u = Return (task_url t))
  ∧ task_http_proxy t = match options !! "http_proxy" with
                        | Some v => Some v
                        | None => ghp
                        end
  ∧ task_https_proxy t = match options !! "https_proxy" with
                         | Some v => Some v
                         | None => ghsp
                         end.
Proof.
  intros Hnd Hts Ht Hin.
  destruct (make_tasks_sections _ _ _ _ _ Hts Ht)
    as (options' & u & Hin' & Hu & Hurl & Hhp & Hhsp).
  assert (options' = options) as -> by by apply (section_unique config (task_label t)).
  split; [by exists u|]. by rewrite Hhp, Hhsp.
Qed.

Lemma task_built_from_own_section_witness :
  (∃ u, (<["https_proxy" := "http://proxy:3128"]>
           (<["url" := "https://web2/server-status"]> ∅) : gmap string string)
          !! "url" = Some u
        ∧ ensure_auto_parameter u = Return "https://web2/server-status?auto")
  ∧ Some "http://outer:8080"
    = match (<["https_proxy" := "http://proxy:3128"]>
               (<["url" := "https://web2/server-status"]> ∅) : gmap string string)
              !! "http_proxy" with
      | Some v => Some v
      | None => Some "http://outer:8080"
      end
  ∧ Some "http://proxy:3128"
    = match (<["https_proxy" := "http://proxy:3128"]>
               (<["url" := "https://web2/server-status"]> ∅) : gmap string string)
              !! "https_proxy" with
      | Some v => Some v
      | None => None
      end.
Proof.
  refine (task_built_from_own_section example_config
            (Some "http://outer:8080") None
            [mkTask "web1" "http://web1/server-status?auto=1"
               (Some "http://outer:8080") None;
             mkTask "web2" "https://web2/server-status?auto"
               (Some "http://outer:8080") (Some "http://proxy:3128")]
            (mkTask "web2" "https://web2/server-status?auto"
               (Some "http://outer:8080") (Some "http://proxy:3128"))
            (<["https_proxy" := "http://proxy:3128"]>
               (<["url" := "https://web2/server-status"]> ∅)) _ _ _ _).
  - apply (bool_decide_unpack _). vm_compute. exact I.
  - vm_compute. reflexivity.
  - apply elem_of_cons. right. apply elem_of_cons. left. reflexivity.
  - apply elem_of_cons. right. apply elem_of_cons. right.
    apply elem_of_cons. left. reflexivity.
Defined.

End proxies_more.

(** ** [fetch_and_update] as one sequence *)

Section unit_of_work.

Implicit Types (st : state) (session : request → http_outcome).

Lemma open_request_state url http_proxy https_proxy st :
  gauges (open_request url http_proxy https_proxy st).1 = gauges st
  ∧ stdout (open_request url http_proxy https_proxy st).1 = stdout st.
Proof.
  unfold open_request. by destruct http_proxy, https_proxy.
Qed.

(** X12: [fetch_and_update] never raises.  When the fetch fails it prints
    one error line with its label and leaves the gauges as they were; when
    the fetch succeeds its gauges are those of [update_metrics] on the parsed
    page, and it prints the line of [update_metrics] when [verbose] is set,
    followed by one error line exactly when [update_metrics] raised. *)
Theorem fetch_and_update_output session server_label url http_proxy https_proxy
    (verbose : bool) st :
  (fetch_and_update session server_label url http_proxy https_proxy verbose st).2
  = Return tt
  ∧ (∀ e,
        read_response (session (mkRequest url http_proxy)) = Raise e →
        stdout (fetch_and_update session server_label url http_proxy
                  https_proxy verbose st).1
        = stdout st ++ [ErrorFetching server_label e]
        ∧ gauges (fetch_and_update session server_label url http_proxy
                    https_proxy verbose st).1 = gauges st)
  ∧ (∀ server_status,
        read_response (session (mkRequest url http_proxy)) = Return server_status →
        gauges (fetch_and_update session server_label url http_proxy
                  https_proxy verbose st).1
        = gauges (update_metrics server_label server_status verbose st).1
        ∧ stdout (fetch_and_update session server_label url http_proxy
                    https_proxy verbose st).1
          = stdout st ++ (if verbose then [Updating server_label] else [])
            ++ match (update_metrics server_label server_status verbose st).2 with
               | inl e => [ErrorFetching server_label e]
               | inr _ => []
               end).
Proof.
  pose proof (open_request_proxy url http_proxy https_proxy st) as Hreq.
  destruct (open_request_state url http_proxy https_proxy st) as [Hg Hs].
  unfold fetch_and_update, try_except, fetch_apache_status, bind, lift.
  destruct (open_request url http_proxy https_proxy st) as [st1 r].
  cbn [fst snd] in Hreq, Hg, Hs. subst r.
  cbv beta iota delta [Return Raise].
  split; [|split].
  - destruct (read_response (session (mkRequest url http_proxy)))
      as [e|server_status]; [done|].
    by destruct (update_metrics server_label server_status verbose st1)
      as [st2 [e|[]]].
  - intros e He. rewrite He. cbn. by rewrite Hg, Hs.
  - intros server_status Hstatus. rewrite Hstatus.
    destruct (update_metrics_traced server_label server_status verbose)
      as (ops & r & _ & Hm).
    rewrite !Hm. cbn [fst snd]. rewrite Hg, Hs.
    destruct r as [e|[]]; cbn.
    + by rewrite <- app_assoc.
    + by rewrite app_nil_r.
Qed.

Lemma fetch_and_update_output_witness :
  stdout (fetch_and_update (fun _ => ConnectionFailed "refused") "web1"
            "http://web1/server-status?auto" None None true example_state).1
  = stdout example_state
    ++ [ErrorFetching "web1" (ClientError "refused")].
Proof.
  refine (proj1 (proj1 (proj2 (fetch_and_update_output
            (fun _ => ConnectionFailed "refused") "web1"
            "http://web1/server-status?auto" None None true example_state))
            (ClientError "refused") _)).
  reflexivity.
Defined.

End unit_of_work.

(** ** The loop of [main] *)

Section main_loop.

Implicit Types (config : list (string * gmap string string))
  (net : network) (st : state).

Lemma task_finish_keeps net verbose t st k :
  is_Some (gauges st !! k) →
  is_Some (gauges (task_finish net verbose t st) !! k).
Proof.
  intros Hk. destruct (task_finish_effect net verbose t) as (ops & _ & Hfin).
  rewrite Hfin. cbn. rewrite lookup_apply_ops. by apply step_at_keeps.
Qed.

Lemma gather_keeps net verbose ts finished st k :
  is_Some (gauges st !! k) →
  is_Some (gauges (gather net verbose ts finished st) !! k).
Proof.
  unfold gather. rewrite <- (foldl_start_gauges ts st).
  generalize (foldl (fun st t => task_start t st) st ts).
  induction finished as [|t finished IH]; intros s Hk; [done|].
  cbn [foldl]. by apply IH, task_finish_keeps.
Qed.

Lemma gather_metric net verbose ts finished st metric hostname :
  metric ∉ metric_names →
  gauges (gather net verbose ts finished st) !! (metric, hostname)
  = gauges st !! (metric, hostname).
Proof.
  intros Hm. unfold gather. rewrite foldl_finish_metric by done.
  by rewrite foldl_start_gauges.
Qed.

Lemma cycle_facts config ghp ghsp verbose net st st' :
  cycle config ghp ghsp verbose net st st' →
  (∀ k, is_Some (gauges st !! k) → is_Some (gauges st' !! k))
  ∧ (∀ metric hostname,
        hostname ∉ target_labels config ∨ metric ∉ metric_names →
        gauges st' !! (metric, hostname) = gauges st !! (metric, hostname)).
Proof.
  intros (ts & finished & Hts & Hperm & ->). split.
  - intros k. apply gather_keeps.
  - intros metric hostname [Hh|Hm].
    + apply gather_gauges_other; [done|].
      by rewrite (make_tasks_labels _ _ _ _ Hts).
    + by apply gather_metric.
Qed.

(** X13: over any number of turns of the loop of [main], no gauge child is
    ever removed, and the children of label values that are no target
    section, among them [config], and of other metrics than the eight keep
    their values. *)
Theorem cycles_invariants config ghp ghsp verbose nets st st' :
  cycles config ghp ghsp verbose nets st st' →
  (∀ k, is_Some (gauges st !! k) → is_Some (gauges st' !! k))
  ∧ (∀ metric hostname,
        hostname ∉ target_labels config ∨ metric ∉ metric_names →
        gauges st' !! (metric, hostname) = gauges st !! (metric, hostname)).
Proof.
  revert st. induction nets as [|net nets IH]; intros st; cbn [cycles].
  - by intros ->.
  - intros (st1 & Hcycle & Hrest).
    destruct (cycle_facts _ _ _ _ _ _ _ Hcycle) as (Hk1 & Hf1).
    destruct (IH st1 Hrest) as (Hk2 & Hf2).
    split.
    + intros k Hk. by apply Hk2, Hk1.
    + intros metric hostname Hother. by rewrite Hf2, Hf1.
Qed.

Lemma example_cycles :
  cycles example_config None None false [example_network; example_network]
    example_state
    (gather example_network false example_tasks example_tasks example_final).
Proof.
  exists example_final. split; [exact example_cycle|].
  eexists. split; [|reflexivity].
  exists example_tasks, example_tasks. split; [vm_compute; reflexivity|].
  split; reflexivity.
Qed.

Lemma cycles_invariants_witness :
  is_Some (gauges (gather example_network false example_tasks example_tasks
                     example_final) !! (apache_total_accesses, "web1")).
Proof.
  refine (proj1 (cycles_invariants example_config None None false
                   [example_network; example_network] example_state
                   _ example_cycles) (apache_total_accesses, "web1") _).
  exists (Finite false 5). reflexivity.
Defined.

Lemma cycle_gauges_same config ghp ghsp verbose net a a' b b' :
  NoDup config.*1 →
  cycle config ghp ghsp verbose net a a' →
  cycle config ghp ghsp verbose net b b' →
  gauges a = gauges b → gauges a' = gauges b'.
Proof.
  intros Hnd (ts & fin1 & Hts & Hperm1 & ->) Hcycle Heq.
  destruct (cycle_inv _ _ _ _ _ _ _ _ Hts Hcycle) as (fin2 & Hperm2 & ->).
  assert (NoDup (task_label <$> ts)) as Hnd'.
  { rewrite (make_tasks_labels _ _ _ _ Hts). by apply target_labels_NoDup. }
  apply map_eq. intros [metric hostname].
  destruct (decide (hostname ∈ task_label <$> ts)) as [Hin|Hnot].
  - apply list_elem_of_fmap in Hin as (t & -> & Ht).
    rewrite !gather_gauges_own by done. apply task_finish_local. by rewrite Heq.
  - rewrite !gather_gauges_other by done. by rewrite Heq.
Qed.

Lemma cycle_gauges_again config ghp ghsp verbose net a a' a'' :
  NoDup config.*1 →
  cycle config ghp ghsp verbose net a a' →
  cycle config ghp ghsp verbose net a' a'' →
  gauges a'' = gauges a'.
Proof.
  intros Hnd (ts & fin1 & Hts & Hperm1 & ->) Hcycle.
  destruct (cycle_inv _ _ _ _ _ _ _ _ Hts Hcycle) as (fin2 & Hperm2 & ->).
  assert (NoDup (task_label <$> ts)) as Hnd'.
  { rewrite (make_tasks_labels _ _ _ _ Hts). by apply target_labels_NoDup. }
  apply map_eq. intros [metric hostname].
  destruct (decide (hostname ∈ task_label <$> ts)) as [Hin|Hnot].
  - apply list_elem_of_fmap in Hin as (t & -> & Ht).
    rewrite gather_gauges_own by done.
    rewrite (task_finish_local net verbose t _ (task_finish net verbose t a)).
    + rewrite task_finish_idempotent. by rewrite gather_gauges_own.
    + by rewrite gather_gauges_own.
  - by rewrite !gather_gauges_other.
Qed.

(** X14: while the network keeps giving the same answers, the gauges after
    any number of turns of the loop, one at least, are those after the first
    turn, whatever the orders in which the responses arrive. *)
Theorem cycles_steady config ghp ghsp verbose net n st st1 st' :
  NoDup config.*1 →
  cycle config ghp ghsp verbose net st st1 →
  cycles config ghp ghsp verbose (replicate (S n) net) st st' →
  gauges st' = gauges st1.
Proof.
  intros Hnd. revert st st1. induction n as [|n IH]; intros st st1 Hfirst.
  - cbn [replicate cycles]. intros (s1 & Hcycle & ->).
    exact (cycle_gauges_same config ghp ghsp verbose net st s1 st st1
             Hnd Hcycle Hfirst eq_refl).
  - change (replicate (S (S n)) net) with (net :: replicate (S n) net).
    cbn [cycles]. intros (s1 & Hcycle & Hrest).
    assert (∃ s2, cycle config ghp ghsp verbose net s1 s2) as [s2 Hsecond].
    { cbn [replicate cycles] in Hrest. destruct Hrest as (s2 & H2 & _). eauto. }
    rewrite (IH s1 s2 Hsecond Hrest).
    rewrite (cycle_gauges_again _ _ _ _ _ _ _ _ Hnd Hcycle Hsecond).
    exact (cycle_gauges_same config ghp ghsp verbose net st s1 st st1
             Hnd Hcycle Hfirst eq_refl).
Qed.

Lemma cycles_steady_witness :
  gauges (gather example_network false example_tasks example_tasks example_final)
  = gauges example_final.
Proof.
  refine (cycles_steady example_config None None false example_network 1
            example_state example_final _ _ example_cycle example_cycles).
  apply (bool_decide_unpack _). vm_compute. exact I.
Defined.

End main_loop.

(** ** [ensure_auto_parameter] on ordinary URLs *)

Section auto_parameter_plain.

Implicit Types (a b s host page qs : string) (c : ascii).

Lemma str_append_assoc a b s : (a +:+ b) +:+ s = a +:+ b +:+ s.
Proof.
  induction a as [|x a IH]; [done|]. by rewrite !append_cons, IH.
Qed.

Lemma str_take_app a b : str_take (String.length a) (a +:+ b) = a.
Proof.
  induction a as [|x a IH]; [by destruct b|].
  rewrite append_cons. cbn [String.length str_take]. by rewrite IH.
Qed.

Lemma str_drop_app a b : str_drop (String.length a) (a +:+ b) = b.
Proof.
  induction a as [|x a IH]; [by destruct b|].
  rewrite append_cons. by cbn [String.length str_drop].
Qed.

Lemma str_length_app a b :
  String.length (a +:+ b) = String.length a + String.length b.
Proof.
  induction a as [|x a IH]; [done|].
  rewrite append_cons. cbn [String.length]. by rewrite IH.
Qed.

Lemma str_forall_app f a b :
  str_forall f (a +:+ b) = str_forall f a && str_forall f b.
Proof.
  induction a as [|x a IH]; [done|].
  rewrite append_cons. cbn [str_forall]. rewrite IH. by destruct (f x).
Qed.

Lemma str_filter_id f s : str_forall f s = true → str_filter f s = s.
Proof.
  induction s as [|x s IH]; cbn [str_forall str_filter]; [done|].
  destruct (f x); [|done]. intros H. by rewrite IH.
Qed.

Lemma contains_find c s : contains c s = false → find_char c s = None.
Proof. unfold contains. by destruct (find_char c s). Qed.

Lemma find_char_app c a b :
  find_char c a = None →
  find_char c (a +:+ b) = (fun i => String.length a + i) <$> find_char c b.
Proof.
  induction a as [|x a IH].
  - intros _. change ("" +:+ b) with b. by destruct (find_char c b).
  - rewrite append_cons. cbn [find_char String.length].
    destruct (Ascii.eqb x c); [done|].
    destruct (find_char c a) eqn:E; [done|]. intros _.
    rewrite IH by done. by destruct (find_char c b).
Qed.

Lemma splitnetloc_plain host rest :
  find_char "/" host = None → find_char "?" host = None →
  find_char "#" host = None →
  splitnetloc (String "/" (String "/" (host +:+ String "/" rest))) 2
  = (host, String "/" rest).
Proof.
  intros H1 H2 H3. unfold splitnetloc.
  set (url := String "/" (String "/" (host +:+ String "/" rest))).
  assert (find_from "/" 2 url = Some (2 + String.length host)) as E1.
  { unfold find_from, url. cbn [str_drop]. rewrite find_char_app by done.
    cbn. by rewrite Nat.add_0_r. }
  assert (∀ c, find_char c host = None →
               match find_from c 2 url with
               | Some w => 2 + String.length host <= w
               | None => True
               end) as E2.
  { intros c Hc. unfold find_from, url. cbn [str_drop].
    rewrite find_char_app by done.
    destruct (find_char c (String "/" rest)); cbn; [lia|done]. }
  assert (String.length url = 2 + String.length host + S (String.length rest))
    as L.
  { unfold url. cbn [String.length]. rewrite str_length_app. cbn. lia. }
  assert (foldl (fun delim c =>
                   match find_from c 2 url with
                   | Some wdelim => delim `min` wdelim
                   | None => delim
                   end) (String.length url) ["/"; "?"; "#"]%char
          = 2 + String.length host) as ->.
  { cbn [foldl]. rewrite E1. pose proof (E2 "?"%char H2) as A2.
    pose proof (E2 "#"%char H3) as A3.
    destruct (find_from "?" 2 url), (find_from "#" 2 url); lia. }
  replace (2 + String.length host - 2) with (String.length host) by lia.
  unfold url. cbn [str_drop Nat.add]. by rewrite str_take_app, str_drop_app.
Qed.

Lemma cut_None c s : find_char c s = None → cut c s = None.
Proof. unfold cut. by intros ->. Qed.

Lemma str_drop_app_cons a c b :
  str_drop (S (String.length a)) (a +:+ String c b) = b.
Proof.
  induction a as [|x a IH]; [done|].
  rewrite append_cons. by cbn [String.length str_drop].
Qed.

Lemma cut_app c a b :
  find_char c a = None → cut c (a +:+ String c b) = Some (a, b).
Proof.
  intros Ha. unfold cut. rewrite find_char_app by done.
  cbn [find_char]. rewrite Ascii.eqb_refl. cbn [fmap option_fmap option_map].
  by rewrite Nat.add_0_r, str_take_app, str_drop_app_cons.
Qed.

Lemma str_append_nil a : a +:+ "" = a.
Proof. induction a as [|x a IH]; [done|]. by rewrite append_cons, IH. Qed.

Ltac pick := repeat (apply elem_of_cons; first [by left | right]).

Ltac evaluate_scheme :=
  repeat match goal with
    | |- context [is_alpha ?c] =>
        let v := eval vm_compute in (is_alpha c) in change (is_alpha c) with v
    | |- context [scheme_char ?c] =>
        let v := eval vm_compute in (scheme_char c) in change (scheme_char c) with v
    | |- context [lower ?c] =>
        let v := eval vm_compute in (lower c) in change (lower c) with v
    end.

Lemma urlsplit_plain (secure : bool) host page qpart qs :
  str_forall (fun c => negb (unsafe_url_char c)) host = true →
  str_forall (fun c => negb (unsafe_url_char c)) page = true →
  str_forall (fun c => negb (unsafe_url_char c)) qs = true →
  (∀ c, c ∈ ["/"; "?"; "#"; "["; "]"]%char → contains c host = false) →
  (∀ c, c ∈ ["?"; "#"]%char → contains c page = false) →
  contains "#" qs = false →
  (qpart = "" ∧ qs = "") ∨ qpart = String "?" qs →
  urlsplit ((if secure then "https" else "http") +:+ "://" +:+ host
            +:+ String "/" (page +:+ qpart))
  = Return (mkSplit (if secure then "https" else "http") host
              (String "/" page) qs "").
Proof.
  intros Hsh Hsp Hsq Hh Hp Hq Hpart.
  assert (∀ c, c ∈ ["/"; "?"; "#"; "["; "]"]%char → find_char c host = None)
    as Hh' by (intros c Hc; by apply contains_find, Hh).
  assert (∀ c, c ∈ ["?"; "#"]%char → find_char c page = None)
    as Hp' by (intros c Hc; by apply contains_find, Hp).
  apply contains_find in Hq.
  remember (host +:+ String "/" (page +:+ qpart)) as rest eqn:Hrest.
  assert (str_forall (fun c => negb (unsafe_url_char c)) rest = true) as Hsafe.
  { subst rest. rewrite str_forall_app. cbn [str_forall].
    rewrite str_forall_app, Hsh, Hsp.
    destruct Hpart as [[-> ->]| ->]; [done|]. cbn [str_forall]. by rewrite Hsq. }
  unfold urlsplit.
  assert (str_filter (fun c => negb (unsafe_url_char c))
            (lstrip_c0 ((if secure then "https" else "http") +:+ "://" +:+ rest))
          = (if secure then "https" else "http") +:+ "://" +:+ rest) as ->.
  { assert (∀ pre, str_forall (fun c => negb (unsafe_url_char c)) pre = true →
                   str_filter (fun c => negb (unsafe_url_char c)) (pre +:+ rest)
                   = pre +:+ rest) as Hpre.
    { intros pre Hpre. apply str_filter_id. by rewrite str_forall_app, Hpre. }
    destruct secure; [exact (Hpre "https://" eq_refl)|exact (Hpre "http://" eq_refl)]. }
  assert ((let '(netloc, url) := splitnetloc (String "/" (String "/" rest)) 2 in
           if xorb (contains "[" netloc) (contains "]" netloc)
           then Raise (ValueError "Invalid IPv6 URL")
           else
             let '(url, fragment) :=
               match cut "#" url with Some p => p | None => (url, EmptyString) end in
             let '(url, query) :=
               match cut "?" url with Some p => p | None => (url, EmptyString) end in
             Return (url, query, fragment, netloc))
          = Return (String "/" page, qs, EmptyString, host)) as Htail.
  { subst rest. rewrite splitnetloc_plain by (apply Hh'; pick).
    rewrite (Hh "["%char), (Hh "]"%char) by pick. cbn [xorb].
    destruct Hpart as [[-> ->]| ->].
    - rewrite str_append_nil.
      assert (find_char "#" (String "/" page) = None) as H1.
      { cbn [find_char]. rewrite (Hp' "#"%char) by pick. reflexivity. }
      assert (find_char "?" (String "/" page) = None) as H2.
      { cbn [find_char]. rewrite (Hp' "?"%char) by pick. reflexivity. }
      by rewrite (cut_None _ _ H1), (cut_None _ _ H2).
    - assert (find_char "#" (String "/" (page +:+ String "?" qs)) = None) as H1.
      { cbn [find_char]. rewrite find_char_app by (apply Hp'; pick).
        cbn [find_char]. rewrite Hq. reflexivity. }
      rewrite (cut_None _ _ H1).
      change (String "/" (page +:+ String "?" qs))
        with (String "/" page +:+ String "?" qs).
      rewrite cut_app; [done|].
      cbn [find_char]. rewrite (Hp' "?"%char) by pick. reflexivity. }
  destruct secure.
  - change ("https" +:+ "://" +:+ rest)
      with (String "h" (String "t" (String "t" (String "p" (String "s"
             (String ":" (String "/" (String "/" rest)))))))).
    cbn -[splitnetloc cut contains]. evaluate_scheme.
    cbn -[splitnetloc cut contains].
    destruct (splitnetloc (String "/" (String "/" rest)) 2) as [netloc url].
    destruct (xorb (contains "[" netloc) (contains "]" netloc)); [done|].
    destruct (match cut "#" url with Some p => p | None => (url, EmptyString) end)
      as [url0 fragment].
    destruct (match cut "?" url0 with Some p => p | None => (url0, EmptyString) end)
      as [url1 query0].
    by injection Htail as -> -> -> ->.
  - change ("http" +:+ "://" +:+ rest)
      with (String "h" (String "t" (String "t" (String "p"
             (String ":" (String "/" (String "/" rest))))))).
    cbn -[splitnetloc cut contains]. evaluate_scheme.
    cbn -[splitnetloc cut contains].
    destruct (splitnetloc (String "/" (String "/" rest)) 2) as [netloc url].
    destruct (xorb (contains "[" netloc) (contains "]" netloc)); [done|].
    destruct (match cut "#" url with Some p => p | None => (url, EmptyString) end)
      as [url0 fragment].
    destruct (match cut "?" url0 with Some p => p | None => (url0, EmptyString) end)
      as [url1 query0].
    by injection Htail as -> -> -> ->.
Qed.

Lemma urlparse_plain (secure : bool) host page qpart qs :
  str_forall (fun c => negb (unsafe_url_char c)) host = true →
  str_forall (fun c => negb (unsafe_url_char c)) page = true →
  str_forall (fun c => negb (unsafe_url_char c)) qs = true →
  (∀ c, c ∈ ["/"; "?"; "#"; "["; "]"]%char → contains c host = false) →
  (∀ c, c ∈ ["?"; "#"; ";"]%char → contains c page = false) →
  contains "#" qs = false →
  (qpart = "" ∧ qs = "") ∨ qpart = String "?" qs →
  urlparse ((if secure then "https" else "http") +:+ "://" +:+ host
            +:+ String "/" (page +:+ qpart))
  = Return (mkParse (if secure then "https" else "http") host
              (String "/" page) "" qs "").
Proof.
  intros Hsh Hsp Hsq Hh Hp Hq Hpart. unfold urlparse.
  rewrite (urlsplit_plain secure host page qpart qs); try done.
  - unfold Return.
    assert (contains ";" (String "/" page) = false) as ->.
    { unfold contains. cbn [find_char].
      rewrite (contains_find _ _ (Hp ";"%char ltac:(pick))). reflexivity. }
    by rewrite andb_false_r.
  - intros c Hc. apply Hp. apply elem_of_cons in Hc as [->|Hc]; [pick|].
    apply elem_of_cons in Hc as [->|Hc]; [pick|]. by apply elem_of_nil in Hc.
Qed.

Lemma urlunparse_plain (secure : bool) host page qs :
  host ≠ "" → qs ≠ "" →
  urlunparse (mkParse (if secure then "https" else "http") host
                (String "/" page) "" qs "")
  = plain_url secure host page +:+ "?" +:+ qs.
Proof.
  intros Hhost Hquery. unfold urlunparse, urlunsplit, plain_url.
  cbn [scheme netloc path params query fragment
       split_scheme split_netloc split_path split_query split_fragment].
  change (nonempty "") with false. cbv iota.
  assert (nonempty host = true) as -> by (by destruct host).
  assert (nonempty qs = true) as -> by (by destruct qs).
  change (str_take 1 (String "/" page)) with "/".
  by destruct secure.
Qed.

(** X15: on an ordinary URL, made of [http://] or [https://], a non-empty
    host, a slash and a path, with no fragment, no parameters after a
    semicolon and none of the characters that [urlsplit] removes,
    [ensure_auto_parameter] returns the URL followed by [?auto]; when the URL
    carries a query it returns the URL as it is if [parse_qs] finds [auto]
    in the query, and the URL followed by [&auto] otherwise. *)
Theorem ensure_auto_parameter_plain (secure : bool) host page :
  host ≠ "" →
  str_forall (fun c => negb (unsafe_url_char c)) (host +:+ page) = true →
  (∀ c, c ∈ ["/"; "?"; "#"; "["; "]"]%char → contains c host = false) →
  (∀ c, c ∈ ["?"; "#"; ";"]%char → contains c page = false) →
  ensure_auto_parameter (plain_url secure host page)
  = Return (plain_url secure host page +:+ "?auto")
  ∧ ∀ qs,
      qs ≠ "" →
      str_forall (fun c => negb (unsafe_url_char c)) qs = true →
      contains "#" qs = false →
      ensure_auto_parameter (plain_url secure host page +:+ "?" +:+ qs)
      = Return (match parse_qs qs !! "auto" with
                | Some _ => plain_url secure host page +:+ "?" +:+ qs
                | None => plain_url secure host page +:+ "?" +:+ qs +:+ "&auto"
                end).
Proof.
  intros Hhost Hsafe Hh Hp. rewrite str_forall_app in Hsafe.
  apply andb_true_iff in Hsafe as [Hsh Hsp]. split.
  - unfold ensure_auto_parameter.
    replace (plain_url secure host page)
      with ((if secure then "https" else "http") +:+ "://" +:+ host
            +:+ String "/" (page +:+ "")) at 1
      by (by rewrite str_append_nil).
    rewrite (urlparse_plain secure host page "" ""); try done; [|by left].
    unfold Return. cbn [query]. change (parse_qs "" !! "auto") with (@None (list string)).
    cbv iota. change (nonempty "") with false. cbv iota. unfold replace_query.
    cbn [scheme netloc path params query fragment].
    by rewrite urlunparse_plain.
  - intros qs Hquery Hsq Hq. unfold ensure_auto_parameter.
    replace (plain_url secure host page +:+ "?" +:+ qs)
      with ((if secure then "https" else "http") +:+ "://" +:+ host
            +:+ String "/" (page +:+ String "?" qs)) at 1
      by (unfold plain_url; by rewrite !str_append_assoc).
    rewrite (urlparse_plain secure host page (String "?" qs) qs);
      try done; [|by right].
    unfold Return. cbn [query].
    destruct (parse_qs qs !! "auto"); [done|].
    assert (nonempty qs = true) as -> by (by destruct qs).
    unfold replace_query. cbn [scheme netloc path params query fragment].
    rewrite urlunparse_plain; [done|done|by destruct qs].
Qed.

Lemma ensure_auto_parameter_plain_witness :
  ensure_auto_parameter "https://web2/server-status"
  = Return "https://web2/server-status?auto"
  ∧ ensure_auto_parameter "https://web2/server-status?refresh=5"
    = Return "https://web2/server-status?refresh=5&auto".
Proof.
  destruct (ensure_auto_parameter_plain true "web2" "server-status")
    as [Hbare Hquery].
  - discriminate.
  - reflexivity.
  - intros c Hc. repeat (apply elem_of_cons in Hc as [->|Hc]; [reflexivity|]).
    by apply elem_of_nil in Hc.
  - intros c Hc. repeat (apply elem_of_cons in Hc as [->|Hc]; [reflexivity|]).
    by apply elem_of_nil in Hc.
  - split; [exact Hbare|].
    refine (Hquery "refresh=5" _ eq_refl eq_refl). discriminate.
Defined.

End auto_parameter_plain.
